(** * tg-news-autoposter: the filtering, ledger and posting pipeline of
      [telegrambot.py], embedded and verified.

    Python values are modelled as follows.
    - [str] is a list of Unicode code points (Python indexes, slices and
      measures strings by code point).
    - a [dict] used as a map ([posted_articles]) is a [gmap].
    - [datetime] values and POSIX timestamps are exact integers; the
      rounding of the float subtraction in [clean_old_posts] is not
      modelled.
    - network, model, file-system and clock results are explicit inputs. *)

From Stdlib Require Import ZArith NArith List Ascii String Sorted Permutation Lia Bool.
From stdpp Require Import gmap list fin_maps.
Import ListNotations.

Local Open Scope N_scope.

(** ** Python strings *)

Module Py.

Definition str : Type := list N.

(** UTF-8 decoding, used only to write string literals of the source. *)
Fixpoint utf8_decode (bs : list N) : str :=
  match bs with
  | [] => []
  | b :: r =>
    if b <? 128 then b :: utf8_decode r
    else if b <? 224 then
      match r with
      | c1 :: r1 => ((b mod 32) * 64 + c1 mod 64) :: utf8_decode r1
      | _ => []
      end
    else if b <? 240 then
      match r with
      | c1 :: c2 :: r2 =>
        ((b mod 16) * 4096 + (c1 mod 64) * 64 + c2 mod 64) :: utf8_decode r2
      | _ => []
      end
    else
      match r with
      | c1 :: c2 :: c3 :: r3 =>
        ((b mod 8) * 262144 + (c1 mod 64) * 4096 + (c2 mod 64) * 64 + c3 mod 64)
          :: utf8_decode r3
      | _ => []
      end
  end.

Definition lit (s : string) : str :=
  utf8_decode (List.map N_of_ascii (list_ascii_of_string s)).

(** The characters the source writes with a backslash or inside quotes. *)
Definition LF : N := 10.
Definition CR : N := 13.
Definition SPACE : N := 32.
Definition DQUOTE : N := 34.
Definition SLASH : N := 47.

(** [s.startswith(p)] *)
Fixpoint startswith (p s : str) : bool :=
  match p, s with
  | [], _ => true
  | _ :: _, [] => false
  | a :: p', b :: s' => (a =? b) && startswith p' s'
  end.

(** [sub in s] *)
Fixpoint contains (sub s : str) : bool :=
  startswith sub s ||
  match s with
  | [] => false
  | _ :: s' => contains sub s'
  end.

(** [s.find(sub)]: index of the first occurrence, or -1. *)
Fixpoint find_from (sub s : str) (i : Z) : Z :=
  if startswith sub s then i
  else match s with
       | [] => (-1)%Z
       | _ :: s' => find_from sub s' (i + 1)%Z
       end.

Definition find (sub s : str) : Z := find_from sub s 0%Z.

(** Slice bounds: a negative index counts from the end, and both ends are
    clamped to the string. *)
Definition clamp_index (len i : Z) : Z :=
  let j := if (i <? 0)%Z then (i + len)%Z else i in
  Z.max 0 (Z.min len j).

(** [s[a:b]] *)
Definition slice (a b : Z) (s : str) : str :=
  let len := Z.of_nat (List.length s) in
  let lo := clamp_index len a in
  let hi := clamp_index len b in
  firstn (Z.to_nat (hi - lo)) (skipn (Z.to_nat lo) s).

(** [s[:n]] for a literal [n >= 0] *)
Definition upto (n : nat) (s : str) : str := firstn n s.

(** [s.split(sep)] for a non-empty [sep]: [skip] counts the characters of a
    separator still to be passed, [cur] is the current piece, reversed. *)
Fixpoint split_go (sep s : str) (skip : nat) (cur : str) : list str :=
  match s with
  | [] => [rev cur]
  | c :: s' =>
    match skip with
    | S k => split_go sep s' k cur
    | O =>
      if startswith sep s
      then rev cur :: split_go sep s' (List.length sep - 1) []
      else split_go sep s' 0 (c :: cur)
    end
  end.

Definition split (sep s : str) : list str := split_go sep s 0 [].

(** [str.isspace] on one character: the code points Python treats as white
    space. *)
Definition isspace (c : N) : bool :=
  ((9 <=? c) && (c <=? 13)) || ((28 <=? c) && (c <=? 32)) ||
  (c =? 133) || (c =? 160) || (c =? 5760) ||
  ((8192 <=? c) && (c <=? 8202)) || (c =? 8232) || (c =? 8233) ||
  (c =? 8239) || (c =? 8287) || (c =? 12288).

(** [s.split()]: the maximal runs of non-space characters. *)
Fixpoint words_go (s : str) (cur : str) : list str :=
  match s with
  | [] => match cur with [] => [] | _ => [rev cur] end
  | c :: s' =>
    if isspace c
    then match cur with
         | [] => words_go s' []
         | _ => rev cur :: words_go s' []
         end
    else words_go s' (c :: cur)
  end.

Definition words (s : str) : list str := words_go s [].

(** [sep.join(l)] *)
Fixpoint join (sep : str) (l : list str) : str :=
  match l with
  | [] => []
  | [w] => w
  | w :: r => w ++ sep ++ join sep r
  end.

(** [s.replace(a, b)] for single characters *)
Definition replace (a b : N) (s : str) : str :=
  List.map (fun c => if c =? a then b else c) s.

(** [s.lstrip(ch)] for a single character [ch] *)
Fixpoint lstrip_char (ch : N) (s : str) : str :=
  match s with
  | c :: s' => if c =? ch then lstrip_char ch s' else s
  | [] => []
  end.

(** [s.strip()] *)
Fixpoint lstrip (s : str) : str :=
  match s with
  | c :: s' => if isspace c then lstrip s' else s
  | [] => []
  end.

Definition strip (s : str) : str := rev (lstrip (rev (lstrip s))).

(** [any(kw in text for kw in kws)] *)
Definition any_in (kws : list str) (text : str) : bool :=
  existsb (fun kw => contains kw text) kws.

(** A lower-casing function that agrees with [str.lower] on Basic Latin and
    on the Russian alphabet; it instantiates the [lower] parameter in the
    worked examples. *)
Definition lower_char (c : N) : N :=
  if (65 <=? c) && (c <=? 90) then c + 32
  else if (1040 <=? c) && (c <=? 1071) then c + 32
  else if c =? 1025 then 1105
  else c.

Definition lower_basic (s : str) : str := List.map lower_char s.

End Py.

Import Py.

(** ** Configuration *)

Definition RETENTION_DAYS : Z := 7.

Definition REQUIRE_KEYWORDS : list str := List.map lit [
  "vpn"; "прокси"; "туннель"; "proxy"; "tunnel"; "шифрование"; "encrypt";
  "приватность"; "privacy"; "безопасность"; "security"; "защита данных";
  "интернет"; "internet"; "сеть"; "network"; "протокол"; "protocol";
  "анонимность"; "anonymous"; "скрытие"; "incognito"; "скрытый"; "hidden";
  "цензура"; "блокировка"; "blocking"; "censorship"; "restrict"; "ограничение";
  "dns"; "dpi"; "фильтр"; "filter"; "обход"; "bypass"; "роскомнадзор"; "ркн";
  "трафик"; "traffic"; "пакет"; "packet"; "соединение"; "connection";
  "tor"; "darknet"; "wireguard"; "openvpn"; "shadowsocks"; "обфускация";
  "нейросеть"; "ии"; "ai"; "llm"; "gpt"; "claude"; "chatgpt";
  "уязвимость"; "vulnerability"; "эксплойт"; "exploit"; "zero-day";
  "malware"; "вредонос"; "кибератака"; "взлом"; "security patch"; "notepad++"
]%string.

Definition EXCLUDE_KEYWORDS : list str := List.map lit [
  "теннис"; "футбол"; "хоккей"; "баскетбол"; "спорт"; "матч"; "команда";
  "игра"; "геймплей"; "gameplay"; "dungeon"; "playstation"; "xbox"; "steam";
  "кино"; "фильм"; "сериал"; "музыка"; "концерт"; "актер"; "режиссер";
  "coca-cola"; "pepsi"; "tesla"; "акции"; "биржа"; "инвестор"; "выручка";
  "выборы"; "президент"; "парламент"; "закон"; "болезнь"; "вирус"; "covid";
  "биткойн"; "bitcoin"; "крипто"; "crypto"; "блокчейн"; "автомобиль"; "машина"
]%string.

Definition RUSSIA_KEYWORDS : list str :=
  List.map lit ["россия"; "рф"; "российск"; "москв"; "ркн"]%string.

(** ** Candidate records and the ledger *)

(** The dict every loader builds: keys [id], [title], [summary], [link],
    [source], [published_parsed]. *)
Record Article : Type := mkArticle {
  art_id : str;
  art_title : str;
  art_summary : str;
  art_link : str;
  art_source : str;
  published_parsed : Z
}.

(** [posted_articles] maps an article id to a timestamp or [None]; its type
    is [gmap str (option Z)] throughout. *)

(** The condition of the dict comprehension: [ts is None or ts > cutoff]. *)
Definition retained (cutoff : Z) (ts : option Z) : bool :=
  match ts with
  | None => true
  | Some t => (t >? cutoff)%Z
  end.

(** [clean_old_posts], with [datetime.now().timestamp()] read as [now]. *)
Definition clean_old_posts (now : Z) (posted_articles : gmap str (option Z))
  : gmap str (option Z) :=
  let cutoff := (now - RETENTION_DAYS * 86400)%Z in
  filter (fun p : str * option Z => retained cutoff p.2) posted_articles.

(** [save_posted]: the in-memory update. *)
Definition save_posted (now : Z) (article_id : str)
    (posted_articles : gmap str (option Z)) : gmap str (option Z) :=
  <[article_id := Some now]> posted_articles.

(** ** Ranking: [list.sort(key=..., reverse=True)]

    Python's sort is stable, and stays stable under [reverse=True]: of two
    records with equal keys the one that came first stays first. *)

Section Sorting.
Context {A : Type} (key : A -> Z).

Fixpoint insert_desc (x : A) (l : list A) : list A :=
  match l with
  | [] => [x]
  | y :: r =>
    if (key y <=? key x)%Z then x :: y :: r else y :: insert_desc x r
  end.

Fixpoint sort_desc (l : list A) : list A :=
  match l with
  | [] => []
  | x :: r => insert_desc x (sort_desc r)
  end.

Definition has_key (k : Z) (x : A) : bool := (key x =? k)%Z.

(** Most recent first: every record is at least as recent as all the
    records after it. *)
Definition newest_first : list A -> Prop :=
  StronglySorted (fun a b => (key b <= key a)%Z).

End Sorting.

(** ** Filtering *)

(** [kw] occurs in [text]. *)
Definition occurs_in (kw text : str) : Prop :=
  exists pre post, text = pre ++ kw ++ post.

(** The require-terms found in a text, as the generator of
    [check_require_keywords] visits them. *)
Definition matched (text : str) : list str :=
  List.filter (fun kw => contains kw text) REQUIRE_KEYWORDS.

(** Exactly [n] distinct require-terms occur in [text]. *)
Definition distinct_matches (n : nat) (text : str) : Prop :=
  exists ks : list str,
    List.NoDup ks /\ List.length ks = n /\
    forall k, In k ks <-> In k REQUIRE_KEYWORDS /\ occurs_in k text.

Section Filtering.
(** Python's built-in [str.lower]. *)
Variable lower : str -> str.

Definition check_require_keywords (text : str) : bool :=
  let text_lower := lower text in
  let score :=
    List.length
      (List.filter (fun kw => contains kw text_lower) REQUIRE_KEYWORDS) in
  (2 <=? score)%nat.

(** The text the loop of [filter_articles] builds for a record. *)
Definition article_text (e : Article) : str :=
  lower (art_title e ++ [SPACE] ++ art_summary e).

(** One iteration of the loop over [articles]; the state is the pair
    ([suitable_ru], [suitable_world]). *)
Definition filter_step (posted_articles : gmap str (option Z))
    (acc : list Article * list Article) (e : Article)
  : list Article * list Article :=
  if bool_decide (is_Some (posted_articles !! art_id e)) then acc
  else
    let text := article_text e in
    if any_in EXCLUDE_KEYWORDS text then acc
    else if negb (check_require_keywords text) then acc
    else if any_in RUSSIA_KEYWORDS text
         then (acc.1 ++ [e], acc.2)
         else (acc.1, acc.2 ++ [e]).

Definition buckets (posted_articles : gmap str (option Z))
    (articles : list Article) : list Article * list Article :=
  fold_left (filter_step posted_articles) articles ([], []).

Definition filter_articles (posted_articles : gmap str (option Z))
    (articles : list Article) : list Article :=
  let '(suitable_ru, suitable_world) := buckets posted_articles articles in
  let target :=
    match suitable_ru with
    | [] => suitable_world
    | _ :: _ => suitable_ru
    end in
  sort_desc published_parsed target.

(** The three tests of the loop, and the locale test, on one record. *)
Definition in_ledger (ledger : gmap str (option Z)) (e : Article) : bool :=
  bool_decide (is_Some (ledger !! art_id e)).

Definition excluded (e : Article) : bool :=
  any_in EXCLUDE_KEYWORDS (article_text e).

Definition relevant (e : Article) : bool :=
  check_require_keywords (article_text e).

Definition is_locale (e : Article) : bool :=
  any_in RUSSIA_KEYWORDS (article_text e).

Definition survives (ledger : gmap str (option Z)) (e : Article) : bool :=
  negb (in_ledger ledger e) && negb (excluded e) && relevant e.

(** The two buckets, as selections from the input batch. *)
Definition locale_bucket (ledger : gmap str (option Z))
    (articles : list Article) : list Article :=
  List.filter (fun e => survives ledger e && is_locale e) articles.

Definition general_bucket (ledger : gmap str (option Z))
    (articles : list Article) : list Article :=
  List.filter (fun e => survives ledger e && negb (is_locale e)) articles.

(** The working set: the locale bucket when it is not empty. *)
Definition working_set (ledger : gmap str (option Z))
    (articles : list Article) : list Article :=
  match locale_bucket ledger articles with
  | [] => general_bucket ledger articles
  | _ :: _ => locale_bucket ledger articles
  end.

End Filtering.

(** ** Source adapters

    What the network returns is an input: the page text of [safe_get]
    ([None] when the request fails), the entries of [feedparser.parse], the
    matches of [re.finditer] with their two groups, and the reading
    [clock i] of [datetime.now()] when record [i] is built. *)

Definition clean_text (text : str) : str :=
  join [SPACE] (words (replace CR SPACE (replace LF SPACE text))).

(** The body of the loop of [load_3dnews] for one [part]. None of its string
    operations raises, so the [except] branch is never taken. *)
Definition parse_3dnews_part (now : Z) (part : str) : Article :=
  let href := slice 0 (find [DQUOTE] part) part in
  let title_chunk :=
    slice (find (lit ">") part + 1) (find (lit "</a>") part) part in
  let title := clean_text title_chunk in
  let link := lit "https://3dnews.ru/" ++ lstrip_char SLASH href in
  mkArticle link title [] link (lit "3DNews") now.

Definition anchor_3dnews : str := lit "<a href=" ++ [DQUOTE] ++ lit "/".

Definition load_3dnews (clock : nat -> Z) (html : option str) : list Article :=
  match html with
  | None | Some [] => []
  | Some page =>
    imap (fun i part => parse_3dnews_part (clock i) part)
         (firstn 14 (skipn 1 (split anchor_3dnews page)))
  end.

(** A feed entry: the four keys [load_rss] reads, each possibly absent. *)
Record Entry : Type := mkEntry {
  entry_link : option str;
  entry_title : option str;
  entry_summary : option str;
  entry_description : option str
}.

(** [a or b] where [a] comes from [dict.get]: an absent or empty [a] gives [b]. *)
Definition get_or (a : option str) (b : str) : str :=
  match a with
  | Some (c :: r) => c :: r
  | _ => b
  end.

Definition nonempty (s : str) : bool :=
  match s with
  | [] => false
  | _ :: _ => true
  end.

Definition load_rss (clock : nat -> Z) (entries : list Entry) (source : str)
  : list Article :=
  concat (imap (fun i entry =>
    let link := default [] (entry_link entry) in
    let title := clean_text (get_or (entry_title entry) []) in
    let summary :=
      upto 500 (clean_text (get_or (entry_summary entry)
                                   (get_or (entry_description entry) []))) in
    if nonempty link && nonempty title
    then [mkArticle link title summary link source (clock i)]
    else []) (firstn 30 entries)).

(** [matches] lists the groups 1 and 2 of the successive matches. *)
Definition load_vc_new (clock : nat -> Z) (matches : option (list (str * str)))
  : list Article :=
  match matches with
  | None => []
  | Some ms =>
    imap (fun i m =>
            let link := lit "https://vc.ru" ++ lstrip_char SLASH m.1 in
            mkArticle link (clean_text m.2) [] link (lit "VC.ru New") (clock i))
         (firstn 15 ms)
  end.

Record Sources : Type := mkSources {
  page_3dnews : option str;
  clock_3dnews : nat -> Z;
  matches_vc : option (list (str * str));
  clock_vc : nat -> Z;
  feed_xakep : list Entry;
  clock_xakep : nat -> Z;
  feed_github : list Entry;
  clock_github : nat -> Z
}.

Definition load_articles_from_sites (net : Sources) : list Article :=
  load_3dnews (clock_3dnews net) (page_3dnews net)
  ++ load_vc_new (clock_vc net) (matches_vc net)
  ++ load_rss (clock_xakep net) (feed_xakep net) (lit "Xakep.ru")
  ++ load_rss (clock_github net) (feed_github net) (lit "GitHub Trending").

(** ** Rewriter *)

Definition prompt_of (title summary : str) : str :=
  lit "Статья: " ++ title ++ lit ". " ++ summary ++ [LF; LF]
  ++ lit "Сделай новостной пост для Telegram на русском:" ++ [LF]
  ++ lit "- Объём: 400-500 символов." ++ [LF]
  ++ lit "- Дай 2-4 конкретных практических совета для читателя." ++ [LF]
  ++ lit "- Удали рекламу и лишние слова." ++ [LF]
  ++ lit "- В конце добавь 2-3 релевантных хештега." ++ [LF]
  ++ lit "- Не упоминай никакие каналы или внешние ссылки.".

(** The line appended after the model's text. *)
Definition attribution (FOOTER_TEXT link : str) : str :=
  [LF; LF] ++ lit "Источник: " ++ link ++ FOOTER_TEXT.

(** [short_summary]; [chat prompt] is the [content] of the model's first
    choice, or [None] when the call, or reading its result, raises. *)
Definition short_summary (FOOTER_TEXT : str) (chat : str -> option str)
    (title summary link : str) : option str :=
  match chat (prompt_of title summary) with
  | None => None
  | Some content =>
    let core_text := strip content in
    let final_text := core_text ++ attribution FOOTER_TEXT link in
    Some (upto 1024 final_text)
  end.

(** ** Orchestrator *)

(** What the outside world answers during one run; [i] is the position of the
    candidate in [candidates[:5]]. *)
Record Env : Type := mkEnv {
  env_now : Z;                      (* the clock in [clean_old_posts] *)
  env_clean_written : bool;         (* the write in [clean_old_posts] returns *)
  env_sources : Sources;
  env_chat : nat -> str -> option str;
  env_image : nat -> option str;    (* [generate_image] *)
  env_sent : nat -> bool;           (* [send_photo] / [send_message] returns *)
  env_removed : nat -> bool;        (* [os.remove] returns *)
  env_now_saved : nat -> Z;         (* the clock in [save_posted] *)
  env_saved_written : nat -> bool   (* the write in [save_posted] returns *)
}.

(** A message that reached the channel. *)
Record Post : Type := mkPost {
  post_article : Article;
  post_text : str;
  post_photo : option str
}.

Record Run : Type := mkRun {
  posted_articles : gmap str (option Z);     (* the in-memory ledger *)
  posted_file : option (gmap str (option Z)); (* last complete write, if any *)
  published : list Post;                      (* successful Publisher calls *)
  raised : bool                               (* an exception left [autopost] *)
}.

Section Orchestrator.
Variable lower : str -> str.
Variable FOOTER_TEXT : str.

(** The [for art in candidates[:5]] loop from position [i] on. *)
Fixpoint attempts (env : Env) (i : nat) (candidates : list Article)
    (st : Run) : Run :=
  match candidates with
  | [] => st
  | art :: rest =>
    match short_summary FOOTER_TEXT (env_chat env i)
                        (art_title art) (art_summary art) (art_link art) with
    | None | Some [] => attempts env (S i) rest st
    | Some text =>
      let img :=
        match env_image env i with
        | Some (c :: f) => Some (c :: f)
        | _ => None
        end in
      if negb (env_sent env i) then attempts env (S i) rest st
      else
        let st1 := mkRun (posted_articles st) (posted_file st)
                         (published st ++ [mkPost art text img]) false in
        if bool_decide (is_Some img) && negb (env_removed env i)
        then attempts env (S i) rest st1
        else
          let ledger :=
            save_posted (env_now_saved env i) (art_id art)
                        (posted_articles st1) in
          if env_saved_written env i
          then mkRun ledger (Some ledger) (published st1) false
          else attempts env (S i) rest
                        (mkRun ledger None (published st1) false)
    end
  end.

Definition autopost (env : Env) (ledger0 : gmap str (option Z)) : Run :=
  let ledger := clean_old_posts (env_now env) ledger0 in
  if negb (env_clean_written env) then mkRun ledger None [] true
  else
    let candidates :=
      filter_articles lower ledger
                      (load_articles_from_sites (env_sources env)) in
    attempts env 0 (firstn 5 candidates) (mkRun ledger (Some ledger) [] false).

End Orchestrator.

(** ** Worked inputs *)

Definition xakep_record (url title : string) (published : Z) : Article :=
  mkArticle (lit url) (lit title) [] (lit url) (lit "Xakep.ru") published.

(** Two require-terms ("vpn", "proxy"), no locale-term. *)
Definition art_world : Article :=
  xakep_record "https://x/1" "New VPN proxy released" 0.
(** Three require-terms, one of them ("ркн") also a locale-term. *)
Definition art_ru : Article :=
  xakep_record "https://x/2" "РКН blocking VPN" 0.
(** One require-term ("vpn"). *)
Definition art_single : Article :=
  xakep_record "https://x/3" "VPN update" 0.
(** Two require-terms and the exclude-term "steam". *)
Definition art_steam : Article :=
  xakep_record "https://x/4" "VPN proxy on Steam" 0.

(** The page [<a href="/x"></a>]: one link with no text. *)
Definition page_empty_anchor : str :=
  lit "<a href=" ++ [DQUOTE] ++ lit "/x" ++ [DQUOTE] ++ lit "></a>".

(** A match whose second group is one space, as the pattern of
    [load_vc_new] yields on [href="/x"><span> </span>]. *)
Definition match_blank_span : str * str := (lit "/x", [SPACE]).

Definition feed_entry (url title : string) : Entry :=
  mkEntry (Some (lit url)) (Some (lit title)) None None.

Definition two_candidates : Sources := {|
  page_3dnews := None;
  clock_3dnews := fun _ => 0%Z;
  matches_vc := None;
  clock_vc := fun _ => 0%Z;
  feed_xakep := [feed_entry "https://x/1" "New VPN proxy released";
                 feed_entry "https://x/5" "Tor network update"];
  clock_xakep := fun _ => 0%Z;
  feed_github := [];
  clock_github := fun _ => 0%Z
|}.

(** Every call succeeds, except [os.remove] on the first candidate's image. *)
Definition env_remove_fails : Env := {|
  env_now := 1700000000;
  env_clean_written := true;
  env_sources := two_candidates;
  env_chat := fun _ _ => Some (lit "text");
  env_image := fun _ => Some (lit "img_1.jpg");
  env_sent := fun _ => true;
  env_removed := fun i => match i with O => false | S _ => true end;
  env_now_saved := fun _ => 1700000001%Z;
  env_saved_written := fun _ => true
|}.

(** Every call succeeds, except the ledger write after the first publish. *)
Definition env_write_fails : Env := {|
  env_now := 1700000000;
  env_clean_written := true;
  env_sources := two_candidates;
  env_chat := fun _ _ => Some (lit "text");
  env_image := fun _ => None;
  env_sent := fun _ => true;
  env_removed := fun _ => true;
  env_now_saved := fun _ => 1700000001%Z;
  env_saved_written := fun i => match i with O => false | S _ => true end
|}.

(** ** The ledger file

    [posted_articles.json] holds a list of objects with the keys [id] and
    [timestamp]. An item is read with [item["id"]], which raises when the key
    is missing, and [item.get("timestamp")], which gives [None] when the key
    is missing or null. *)

Record Item : Type := mkItem {
  item_id : option str;
  item_timestamp : option Z
}.

(** The dict comprehension of the start-up code, item by item: a later item
    overwrites an earlier one with the same id, and an item without [id]
    raises. *)
Fixpoint load_items (posted_data : list Item) (acc : gmap str (option Z))
  : option (gmap str (option Z)) :=
  match posted_data with
  | [] => Some acc
  | item :: rest =>
    match item_id item with
    | None => None
    | Some i => load_items rest (<[i := item_timestamp item]> acc)
    end
  end.

(** The start-up code that builds [posted_articles]. [file] is [None] when
    [posted_articles.json] does not exist or [json.load] raises; every
    exception inside the [try] gives the empty ledger. *)
Definition load_posted_articles (file : option (list Item))
  : gmap str (option Z) :=
  match file with
  | None => ∅
  | Some posted_data => default ∅ (load_items posted_data ∅)
  end.

(** [save_posted_articles]: the list written to the file. Python writes the
    items in the dict's order; the model lists them in the map's order. *)
Definition save_posted_articles (posted_articles : gmap str (option Z))
  : list Item :=
  (fun p : str * option Z => mkItem (Some p.1) p.2)
    <$> map_to_list posted_articles.

(** The last item of the file that carries the id [i]. *)
Definition last_item (i : str) (posted_data : list Item) : option Item :=
  List.find (fun item => bool_decide (item_id item = Some i))
            (rev posted_data).

(** A word of a text: not empty, and free of white space. *)
Definition is_word (w : str) : Prop :=
  w <> [] /\ forall c, In c w -> isspace c = false.

(** A text that does not begin with white space. *)
Definition head_not_space (s : str) : Prop :=
  match s with
  | [] => True
  | c :: _ => isspace c = false
  end.

(** ** More worked inputs *)

(** As [art_world]'s companion in [two_candidates], and a later record. *)
Definition art_tor : Article :=
  xakep_record "https://x/5" "Tor network update" 0.

Definition art_late : Article :=
  xakep_record "https://x/6" "Tor network update" 1.

(** Every collaborator succeeds; no image is produced. *)
Definition env_all_ok : Env := {|
  env_now := 1700000000;
  env_clean_written := true;
  env_sources := two_candidates;
  env_chat := fun _ _ => Some (lit "text");
  env_image := fun _ => None;
  env_sent := fun _ => true;
  env_removed := fun _ => true;
  env_now_saved := fun _ => 1700000001%Z;
  env_saved_written := fun _ => true
|}.

(** The model call fails for every candidate. *)
Definition env_no_text : Env := {|
  env_now := 1700000000;
  env_clean_written := true;
  env_sources := two_candidates;
  env_chat := fun _ _ => None;
  env_image := fun _ => None;
  env_sent := fun _ => true;
  env_removed := fun _ => true;
  env_now_saved := fun _ => 1700000001%Z;
  env_saved_written := fun _ => true
|}.

(** A ledger that already holds both candidates of [two_candidates], one
    with a null timestamp and one recorded a day before [env_now]. *)
Definition ledger_saturated : gmap str (option Z) :=
  <[lit "https://x/1" := None]>
    (<[lit "https://x/5" := Some 1699913600%Z]> ∅).

(** * Properties *)

(** ** Substring search *)

Example lit_cyrillic : lit "ркн vpn" = [1088; 1082; 1085; 32; 118; 112; 110].
Proof. reflexivity. Qed.

Example split_example :
  split (lit "ab") (lit "xabyabab") = [lit "x"; lit "y"; []; []].
Proof. reflexivity. Qed.

Example find_example : find (lit "</a>") (lit "foo></a>") = 4%Z.
Proof. reflexivity. Qed.

Example slice_negative : slice 1 (-1) (lit "abcd") = lit "bc".
Proof. reflexivity. Qed.

Example words_example :
  words (lit "  a  bc d ") = [lit "a"; lit "bc"; lit "d"].
Proof. reflexivity. Qed.

Lemma startswith_app (p s : str) :
  startswith p s = true <-> exists post, s = p ++ post.
Proof.
  revert s. induction p as [|a p IH]; intros s; simpl.
  - split; [intros _; exists s; reflexivity | reflexivity].
  - destruct s as [|b s].
    + split; [discriminate | intros [post H]; discriminate].
    + rewrite andb_true_iff, N.eqb_eq, IH. split.
      * intros [-> [post ->]]. exists post. reflexivity.
      * intros [post H]. injection H as -> ->. split; [reflexivity | eauto].
Qed.

Lemma contains_occurs (kw text : str) :
  contains kw text = true <-> occurs_in kw text.
Proof.
  unfold occurs_in. induction text as [|c text IH]; simpl.
  - rewrite orb_false_r, startswith_app. split.
    + intros [post H]. exists [], post. exact H.
    + intros [pre [post H]]. destruct pre; [| discriminate].
      exists post. exact H.
  - rewrite orb_true_iff, startswith_app, IH. split.
    + intros [[post H] | [pre [post H]]].
      * exists [], post. exact H.
      * exists (c :: pre), post. rewrite H. reflexivity.
    + intros [pre [post H]]. destruct pre as [|c' pre].
      * left. exists post. exact H.
      * right. injection H as _ H. exists pre, post. exact H.
Qed.

Lemma any_in_occurs (kws : list str) (text : str) :
  any_in kws text = true <-> exists kw, In kw kws /\ occurs_in kw text.
Proof.
  unfold any_in. rewrite existsb_exists.
  split; intros [kw [Hin H]]; exists kw; split; try exact Hin;
    apply contains_occurs; exact H.
Qed.

(** ** Stable descending sort *)

Section SortingFacts.
Context {A : Type} (key : A -> Z).

Lemma insert_desc_perm (x : A) (l : list A) :
  Permutation (insert_desc key x l) (x :: l).
Proof.
  induction l as [|y r IH]; simpl.
  - apply Permutation_refl.
  - destruct (key y <=? key x)%Z.
    + apply Permutation_refl.
    + apply Permutation_trans with (y :: x :: r).
      * apply perm_skip. exact IH.
      * apply perm_swap.
Qed.

Lemma sort_desc_perm (l : list A) : Permutation (sort_desc key l) l.
Proof.
  induction l as [|x r IH]; simpl.
  - apply perm_nil.
  - apply Permutation_trans with (x :: sort_desc key r).
    + apply insert_desc_perm.
    + apply perm_skip. exact IH.
Qed.

Lemma sort_desc_In (l : list A) (x : A) : In x (sort_desc key l) <-> In x l.
Proof.
  split; apply Permutation_in;
    [| apply Permutation_sym]; apply sort_desc_perm.
Qed.

Lemma insert_desc_sorted (x : A) (l : list A) :
  newest_first key l -> newest_first key (insert_desc key x l).
Proof.
  unfold newest_first. induction l as [|y r IH]; simpl; intros Hs.
  - constructor; constructor.
  - destruct (Z.leb_spec (key y) (key x)) as [Hle | Hgt].
    + constructor; [exact Hs |].
      apply StronglySorted_inv in Hs as [_ Hall].
      constructor; [exact Hle |].
      rewrite List.Forall_forall in *. intros b Hb.
      specialize (Hall b Hb). simpl in Hall. lia.
    + apply StronglySorted_inv in Hs as [Hr Hall].
      constructor; [apply IH; exact Hr |].
      apply List.Forall_forall. intros b Hb.
      apply (Permutation_in _ (insert_desc_perm x r)) in Hb.
      destruct Hb as [<- | Hb]; [lia |].
      rewrite List.Forall_forall in Hall. apply Hall. exact Hb.
Qed.

Lemma sort_desc_sorted (l : list A) : newest_first key (sort_desc key l).
Proof.
  induction l as [|x r IH]; simpl.
  - constructor.
  - apply insert_desc_sorted. exact IH.
Qed.

Lemma insert_desc_stable (k : Z) (x : A) (l : list A) :
  List.filter (has_key key k) (insert_desc key x l)
  = List.filter (has_key key k) (x :: l).
Proof.
  induction l as [|y r IH]; [reflexivity |].
  cbn [insert_desc].
  destruct (Z.leb_spec (key y) (key x)) as [Hle | Hgt]; [reflexivity |].
  cbn [List.filter] in *. rewrite IH. unfold has_key.
  destruct (Z.eqb_spec (key x) k), (Z.eqb_spec (key y) k);
    try reflexivity; lia.
Qed.

Lemma sort_desc_stable (k : Z) (l : list A) :
  List.filter (has_key key k) (sort_desc key l) = List.filter (has_key key k) l.
Proof.
  induction l as [|x r IH]; [reflexivity |].
  cbn [sort_desc]. rewrite insert_desc_stable.
  cbn [List.filter]. rewrite IH. reflexivity.
Qed.

End SortingFacts.

(** ** The relevance filter *)

Section FilterFacts.
Variable lower : str -> str.

Lemma filter_step_cases ledger acc e :
  filter_step lower ledger acc e
  = (acc.1 ++ (if survives lower ledger e && is_locale lower e then [e] else []),
     acc.2 ++ (if survives lower ledger e && negb (is_locale lower e) then [e] else [])).
Proof.
  unfold filter_step, survives, in_ledger, excluded, relevant, is_locale.
  destruct acc as [ru world]. cbn [fst snd].
  destruct (bool_decide (is_Some (ledger !! art_id e)));
    cbn [negb andb]; [by rewrite !app_nil_r |].
  destruct (any_in EXCLUDE_KEYWORDS (article_text lower e));
    cbn [negb andb]; [by rewrite !app_nil_r |].
  destruct (check_require_keywords lower (article_text lower e));
    cbn [negb andb]; [| by rewrite !app_nil_r].
  destruct (any_in RUSSIA_KEYWORDS (article_text lower e));
    cbn [negb andb]; by rewrite !app_nil_r.
Qed.

Lemma fold_filter_step ledger articles acc :
  fold_left (filter_step lower ledger) articles acc
  = (acc.1 ++ locale_bucket lower ledger articles,
     acc.2 ++ general_bucket lower ledger articles).
Proof.
  revert acc. induction articles as [|e r IH]; intros [ru world].
  - simpl. by rewrite !app_nil_r.
  - cbn [fold_left]. rewrite IH, filter_step_cases.
    unfold locale_bucket, general_bucket. cbn [List.filter fst snd].
    destruct (survives lower ledger e && is_locale lower e),
             (survives lower ledger e && negb (is_locale lower e));
      by rewrite <- !app_assoc.
Qed.

Lemma buckets_eq ledger articles :
  buckets lower ledger articles
  = (locale_bucket lower ledger articles, general_bucket lower ledger articles).
Proof. unfold buckets. by rewrite fold_filter_step. Qed.

Lemma filter_articles_eq ledger articles :
  filter_articles lower ledger articles
  = sort_desc published_parsed (working_set lower ledger articles).
Proof.
  unfold filter_articles, working_set. rewrite buckets_eq.
  by destruct (locale_bucket lower ledger articles).
Qed.

Lemma working_set_In ledger articles e :
  In e (working_set lower ledger articles) ->
  In e articles /\ survives lower ledger e = true.
Proof.
  unfold working_set, locale_bucket, general_bucket.
  destruct (List.filter _ articles) as [|x l] eqn:Hru; [| rewrite <- Hru];
    intros H; apply filter_In in H as [Hin H];
    apply andb_true_iff in H as [H _]; auto.
Qed.

Lemma filter_articles_In ledger articles e :
  In e (filter_articles lower ledger articles) ->
  In e articles /\ survives lower ledger e = true.
Proof.
  rewrite filter_articles_eq, sort_desc_In. apply working_set_In.
Qed.

(** C1. Whatever the ledger and the batch, a candidate whose id is a key
    of the ledger is not in the output of [filter_articles]; its title and
    summary play no part. *)
Theorem filter_articles_dedup (ledger : gmap str (option Z))
    (articles : list Article) (e : Article) :
  is_Some (ledger !! art_id e) ->
  ~ In e (filter_articles lower ledger articles).
Proof.
  intros Hkey Hin. apply filter_articles_In in Hin as [_ Hs].
  unfold survives, in_ledger in Hs.
  rewrite bool_decide_eq_true_2 in Hs by exact Hkey. discriminate.
Qed.

(** C4. A candidate whose lowercased "title summary" text contains an
    exclude-term is not in the output of [filter_articles], also when the
    text contains two or more require-terms. *)
Theorem filter_articles_exclusion (ledger : gmap str (option Z))
    (articles : list Article) (e : Article) (kw : str) :
  In kw EXCLUDE_KEYWORDS ->
  occurs_in kw (lower (art_title e ++ [SPACE] ++ art_summary e)) ->
  ~ In e (filter_articles lower ledger articles).
Proof.
  intros Hkw Hocc Hin. apply filter_articles_In in Hin as [_ Hs].
  assert (Hex : excluded lower e = true).
  { apply any_in_occurs. exists kw. split; [exact Hkw | exact Hocc]. }
  unfold survives in Hs. rewrite Hex in Hs.
  rewrite andb_false_r in Hs. discriminate.
Qed.

End FilterFacts.

Section FilterClaims.
Variable lower : str -> str.

Lemma filter_filter_and {A} (p q : A -> bool) (l : list A) :
  List.filter p (List.filter q l) = List.filter (fun x => p x && q x) l.
Proof.
  induction l as [|x r IH]; [reflexivity |]. cbn [List.filter].
  destruct (q x); cbn [List.filter]; rewrite ?IH, ?andb_false_r, ?andb_true_r;
    reflexivity.
Qed.

(** C5. Of the two buckets the loop of [filter_articles] fills, the locale
    bucket holds the surviving candidates whose text contains a locale-term
    and the general bucket the other survivors. When both are non-empty, the
    output holds the locale bucket's candidates and none of the general
    bucket's; when the locale bucket is empty, the output holds exactly the
    candidates of the general bucket. *)
Theorem filter_articles_locale_dominance (ledger : gmap str (option Z))
    (articles : list Article) :
  let out := filter_articles lower ledger articles in
  let suitable_ru := (buckets lower ledger articles).1 in
  let suitable_world := (buckets lower ledger articles).2 in
  (forall e, In e suitable_ru <->
     In e articles /\ survives lower ledger e = true /\
     is_locale lower e = true) /\
  (forall e, In e suitable_world <->
     In e articles /\ survives lower ledger e = true /\
     is_locale lower e = false) /\
  (suitable_ru <> [] -> suitable_world <> [] ->
   Permutation out suitable_ru /\
   forall e, In e out -> In e suitable_ru /\ ~ In e suitable_world) /\
  (suitable_ru = [] -> Permutation out suitable_world).
Proof.
  cbn zeta. rewrite filter_articles_eq, buckets_eq. cbn [fst snd].
  assert (Hru : forall e, In e (locale_bucket lower ledger articles) <->
            In e articles /\ survives lower ledger e = true /\
            is_locale lower e = true).
  { intros e. unfold locale_bucket. rewrite filter_In, andb_true_iff.
    reflexivity. }
  assert (Hworld : forall e, In e (general_bucket lower ledger articles) <->
            In e articles /\ survives lower ledger e = true /\
            is_locale lower e = false).
  { intros e. unfold general_bucket.
    rewrite filter_In, andb_true_iff, negb_true_iff. reflexivity. }
  split; [exact Hru |]. split; [exact Hworld |].
  unfold working_set. split.
  - intros Hne _.
    destruct (locale_bucket lower ledger articles) as [|x l] eqn:E;
      [congruence |].
    rewrite <- E in *. split; [apply sort_desc_perm |].
    intros e He. apply sort_desc_In in He. split; [exact He |].
    intros Hw. apply Hru in He as [_ [_ He]]. apply Hworld in Hw as [_ [_ Hw]].
    congruence.
  - intros ->. apply sort_desc_perm.
Qed.

(** C6. The output of [filter_articles] is sorted by [published_parsed],
    most recent first, and the candidates that share a value of
    [published_parsed] come out in the order they have in the input list. *)
Theorem filter_articles_ranked (ledger : gmap str (option Z))
    (articles : list Article) :
  let out := filter_articles lower ledger articles in
  newest_first published_parsed out /\
  exists keep : Article -> bool,
    forall k : Z,
      List.filter (has_key published_parsed k) out
      = List.filter (fun e => has_key published_parsed k e && keep e) articles.
Proof.
  cbn zeta. rewrite filter_articles_eq. split; [apply sort_desc_sorted |].
  unfold working_set, locale_bucket, general_bucket.
  destruct (List.filter _ articles) as [|x l] eqn:E; [| rewrite <- E];
    eexists; intros k; rewrite sort_desc_stable; apply filter_filter_and.
Qed.

(** *** The require threshold *)

Lemma REQUIRE_KEYWORDS_NoDup : List.NoDup REQUIRE_KEYWORDS.
Proof.
  apply NoDup_ListNoDup, (bool_decide_unpack _). vm_compute. exact I.
Qed.

Lemma matched_In (text k : str) :
  In k (matched text) <-> In k REQUIRE_KEYWORDS /\ occurs_in k text.
Proof. unfold matched. rewrite filter_In, contains_occurs. reflexivity. Qed.

Lemma distinct_matches_score (n : nat) (text : str) :
  distinct_matches n text <-> List.length (matched text) = n.
Proof.
  split.
  - intros [ks [Hnd [Hlen Hks]]]. rewrite <- Hlen.
    apply Permutation_length, Stdlib.Sorting.Permutation.NoDup_Permutation.
    + apply List.NoDup_filter, REQUIRE_KEYWORDS_NoDup.
    + exact Hnd.
    + intros k. rewrite matched_In, Hks. reflexivity.
  - intros Hlen. exists (matched text). split; [| split].
    + apply List.NoDup_filter, REQUIRE_KEYWORDS_NoDup.
    + exact Hlen.
    + intros k. exact (matched_In text k).
Qed.

Hypothesis lower_idem : forall s, lower (lower s) = lower s.

Lemma relevant_score (e : Article) :
  relevant lower e
  = (2 <=? List.length (matched (article_text lower e)))%nat.
Proof.
  unfold relevant, check_require_keywords, article_text, matched.
  rewrite lower_idem. reflexivity.
Qed.

(** C3, as the code has it. For a candidate of the batch that is not in the
    ledger and contains no exclude-term: with exactly one require-term in
    its lowercased text it is not in the output; with exactly two distinct
    require-terms it passes the threshold, and it is in the output exactly
    when it is locale-relevant or no surviving candidate is. *)
Theorem filter_articles_require_threshold (ledger : gmap str (option Z))
    (articles : list Article) (e : Article) :
  let text := lower (art_title e ++ [SPACE] ++ art_summary e) in
  In e articles ->
  ledger !! art_id e = None ->
  (forall kw, In kw EXCLUDE_KEYWORDS -> ~ occurs_in kw text) ->
  (distinct_matches 1 text ->
     ~ In e (filter_articles lower ledger articles)) /\
  (distinct_matches 2 text ->
     survives lower ledger e = true /\
     (In e (filter_articles lower ledger articles) <->
      is_locale lower e = true \/ locale_bucket lower ledger articles = [])).
Proof.
  cbn zeta. intros Hin Hfresh Hex.
  assert (Hled : in_ledger ledger e = false).
  { unfold in_ledger. apply bool_decide_eq_false_2.
    rewrite Hfresh. intros [x Hx]. discriminate. }
  assert (Hexc : excluded lower e = false).
  { apply not_true_is_false. intros H. apply any_in_occurs in H.
    destruct H as [kw [Hkw Hocc]]. exact (Hex kw Hkw Hocc). }
  split.
  - intros H1 Hout. apply distinct_matches_score in H1.
    apply filter_articles_In in Hout as [_ Hs]. unfold survives in Hs.
    rewrite relevant_score in Hs. unfold article_text in Hs.
    rewrite H1, andb_false_r in Hs. discriminate.
  - intros H2. apply distinct_matches_score in H2.
    assert (Hs : survives lower ledger e = true).
    { unfold survives. rewrite Hled, Hexc, relevant_score.
      unfold article_text. rewrite H2. reflexivity. }
    split; [exact Hs |].
    rewrite filter_articles_eq, sort_desc_In. unfold working_set.
    destruct (locale_bucket lower ledger articles) as [|x l] eqn:E.
    + split; [intros _; right; reflexivity |]. intros _.
      unfold general_bucket. apply filter_In. split; [exact Hin |].
      rewrite Hs. cbn [andb].
      destruct (is_locale lower e) eqn:Hloc; [| reflexivity].
      assert (Hru : In e (locale_bucket lower ledger articles)).
      { apply filter_In. rewrite Hs, Hloc. auto. }
      rewrite E in Hru. destruct Hru.
    + split.
      * rewrite <- E. unfold locale_bucket. rewrite filter_In.
        intros [_ H]. apply andb_true_iff in H as [_ H]. left. exact H.
      * intros [H | H]; [| discriminate].
        rewrite <- E. unfold locale_bucket. apply filter_In.
        rewrite Hs, H. split; [exact Hin | reflexivity].
Qed.

(** C10. A text made of the single word "openvpn" meets the threshold of
    [check_require_keywords]: the require-terms "vpn" and "openvpn" are
    both found in that one word. *)
Theorem single_word_meets_threshold :
  lower (lit "openvpn") = lit "openvpn" ->
  exists text : str,
    words text = [text] /\
    matched (lower text) = [lit "vpn"; lit "openvpn"] /\
    check_require_keywords lower text = true.
Proof.
  intros Hlow. exists (lit "openvpn"). split; [reflexivity |].
  unfold check_require_keywords, matched. rewrite Hlow.
  split; vm_compute; reflexivity.
Qed.

End FilterClaims.

(** ** The ledger *)

Lemma clean_old_posts_lookup (now : Z) (ledger : gmap str (option Z))
    (article_id : str) :
  clean_old_posts now ledger !! article_id
  = match ledger !! article_id with
    | Some ts => if retained (now - RETENTION_DAYS * 86400)%Z ts
                 then Some ts else None
    | None => None
    end.
Proof.
  unfold clean_old_posts. cbn zeta.
  destruct (ledger !! article_id) as [ts|] eqn:E.
  - destruct (retained _ ts) eqn:R.
    + apply map_lookup_filter_Some. split; [exact E |].
      cbn [snd]. rewrite R. exact I.
    + apply map_lookup_filter_None. right. intros ts' E'.
      assert (ts' = ts) as -> by congruence.
      cbn [snd]. rewrite R. intros [].
  - apply map_lookup_filter_None. left. exact E.
Qed.

(** C7, as the code has it. Pruning with a retention of 7 days removes
    exactly the entries whose timestamp is not null and at most
    [now - 7*86400] (the entry dated exactly at the cutoff goes too); an entry
    with a null timestamp stays, and a retained entry keeps its timestamp. An
    entry dated [now - 8 days] is pruned, one dated [now - 6 days] is kept. *)
Theorem clean_old_posts_retention (now : Z) (ledger : gmap str (option Z))
    (article_id : str) :
  clean_old_posts now ledger !! article_id
  = match ledger !! article_id with
    | Some (Some ts) =>
      if (ts <=? now - 7 * 86400)%Z then None else Some (Some ts)
    | Some None => Some None
    | None => None
    end
  /\ (ledger !! article_id = Some (Some (now - 8 * 86400)%Z) ->
      clean_old_posts now ledger !! article_id = None)
  /\ (ledger !! article_id = Some (Some (now - 6 * 86400)%Z) ->
      clean_old_posts now ledger !! article_id
      = Some (Some (now - 6 * 86400)%Z))
  /\ (ledger !! article_id = Some None ->
      clean_old_posts now ledger !! article_id = Some None).
Proof.
  rewrite clean_old_posts_lookup. unfold retained, RETENTION_DAYS.
  repeat split.
  - destruct (ledger !! article_id) as [[ts|]|]; try reflexivity.
    destruct (Z.gtb_spec ts (now - 7 * 86400)),
             (Z.leb_spec ts (now - 7 * 86400)); try reflexivity; lia.
  - intros ->. destruct (Z.gtb_spec (now - 8 * 86400) (now - 7 * 86400));
      [lia | reflexivity].
  - intros ->. destruct (Z.gtb_spec (now - 6 * 86400) (now - 7 * 86400));
      [reflexivity | lia].
  - intros ->. reflexivity.
Qed.

(** ** The rewriter *)

Lemma upto_length (n : nat) (s : str) : (List.length (upto n s) <= n)%nat.
Proof. unfold upto. rewrite length_firstn. lia. Qed.

(** C9, as the code has it. [short_summary] returns [None] when the model
    call fails, and otherwise the first 1024 characters of the model's
    stripped text followed by the attribution line: a string of at most 1024
    characters, which ends with the whole attribution line when the text and
    the line together have at most 1024 characters. *)
Theorem short_summary_bounded (FOOTER_TEXT : str) (chat : str -> option str)
    (title summary link : str) :
  match short_summary FOOTER_TEXT chat title summary link with
  | None => chat (prompt_of title summary) = None
  | Some out =>
    exists content,
      chat (prompt_of title summary) = Some content /\
      out = firstn 1024 (strip content ++ attribution FOOTER_TEXT link) /\
      (List.length out <= 1024)%nat /\
      ((List.length (strip content ++ attribution FOOTER_TEXT link) <= 1024)%nat ->
       out = strip content ++ attribution FOOTER_TEXT link)
  end.
Proof.
  unfold short_summary.
  destruct (chat (prompt_of title summary)) as [content|]; [| reflexivity].
  exists content. repeat split.
  - apply upto_length.
  - intros Hlen. unfold upto. apply firstn_all2. exact Hlen.
Qed.

(** ** Source adapters *)

Lemma In_imap {A B} (f : nat -> A -> B) (l : list A) (y : B) :
  In y (imap f l) -> exists i x, l !! i = Some x /\ y = f i x.
Proof.
  intros H. apply list_elem_of_In, elem_of_lookup_imap in H.
  destruct H as [i [x [-> Hx]]]. eauto.
Qed.

Lemma In_firstn_In {A} (n : nat) (l : list A) (x : A) :
  In x (firstn n l) -> In x l.
Proof.
  revert l. induction n as [|n IH]; intros [|y l]; simpl; try tauto.
  intros [H | H]; [left; exact H | right; apply IH; exact H].
Qed.

Lemma nonempty_true (s : str) : nonempty s = true <-> s <> [].
Proof. destruct s; simpl; split; congruence. Qed.

(** Every record of [load_rss] has a non-empty id and a non-empty title. *)
Lemma load_rss_nonempty (clock : nat -> Z) (entries : list Entry)
    (source : str) (a : Article) :
  In a (load_rss clock entries source) ->
  art_id a <> [] /\ art_title a <> [].
Proof.
  unfold load_rss. intros H. apply in_concat in H as [rec [Hrec Ha]].
  apply In_imap in Hrec as [i [entry [_ ->]]].
  destruct (nonempty (default [] (entry_link entry))
            && nonempty (clean_text (get_or (entry_title entry) []))) eqn:E;
    [| destruct Ha].
  apply andb_true_iff in E as [Hl Ht].
  destruct Ha as [<- | []]. cbn [art_id art_title].
  split; apply nonempty_true; assumption.
Qed.

(** The ids of [load_3dnews] and [load_vc_new] start with the site's address,
    so they are never empty. *)
Lemma load_3dnews_id_nonempty (clock : nat -> Z) (html : option str)
    (a : Article) :
  In a (load_3dnews clock html) -> art_id a <> [].
Proof.
  unfold load_3dnews. destruct html as [[|c page]|]; try (intros []).
  intros H. apply In_imap in H as [i [part [_ ->]]]. discriminate.
Qed.

Lemma load_vc_new_id_nonempty (clock : nat -> Z)
    (matches : option (list (str * str))) (a : Article) :
  In a (load_vc_new clock matches) -> art_id a <> [].
Proof.
  unfold load_vc_new. destruct matches as [ms|]; [| intros []].
  intros H. apply In_imap in H as [i [m [_ ->]]]. discriminate.
Qed.

(** C8 fails on the code. [load_3dnews] and [load_vc_new] append every record
    they parse without testing the title, unlike [load_rss]: on a page with
    an empty link text, and on a match whose text is blank, they hand the
    filter a record with an empty title. *)
Theorem scraped_record_with_empty_title (clock : nat -> Z) :
  load_3dnews clock (Some page_empty_anchor)
  = [mkArticle (lit "https://3dnews.ru/x") [] [] (lit "https://3dnews.ru/x")
               (lit "3DNews") (clock 0%nat)]
  /\ load_vc_new clock (Some [match_blank_span])
  = [mkArticle (lit "https://vc.rux") [] [] (lit "https://vc.rux")
               (lit "VC.ru New") (clock 0%nat)].
Proof. split; reflexivity. Qed.

(** ** The orchestrator *)

Section OrchestratorFacts.
Variable lower : str -> str.
Variable FOOTER_TEXT : str.

(** While deleting the image and writing the ledger file never fail, the
    loop either leaves the run as it found it or ends on its first
    successful publish, with that candidate recorded. *)
Lemma attempts_files_ok (env : Env) (candidates : list Article) :
  (forall j, env_removed env j = true) ->
  (forall j, env_saved_written env j = true) ->
  forall (i : nat) (st : Run),
    attempts FOOTER_TEXT env i candidates st = st \/
    exists art text img j,
      In art candidates /\
      attempts FOOTER_TEXT env i candidates st
      = let ledger := save_posted (env_now_saved env j) (art_id art)
                                  (posted_articles st) in
        mkRun ledger (Some ledger) (published st ++ [mkPost art text img])
              false.
Proof.
  intros Hrm Hwr. induction candidates as [|art rest IH]; intros i st.
  - left. reflexivity.
  - cbn [attempts].
    assert (Hnext :
      attempts FOOTER_TEXT env (S i) rest st = st \/
      exists art0 text img j,
        In art0 (art :: rest) /\
        attempts FOOTER_TEXT env (S i) rest st
        = let ledger := save_posted (env_now_saved env j) (art_id art0)
                                    (posted_articles st) in
          mkRun ledger (Some ledger)
                (published st ++ [mkPost art0 text img]) false).
    { destruct (IH (S i) st) as [H | [a [t [g [j [Hin H]]]]]];
        [left; exact H | right].
      exists a, t, g, j. split; [right; exact Hin | exact H]. }
    destruct (short_summary _ _ _ _ _) as [[|c text]|]; try exact Hnext.
    destruct (env_sent env i); cbn [negb]; [| exact Hnext].
    rewrite Hrm, andb_false_r, Hwr. right.
    eexists art, (c :: text), _, i. split; [left; reflexivity |].
    reflexivity.
Qed.

(** With a file system that does not fail, a run publishes at most once,
    and the ledger after the run is the pruned ledger, plus the id of the
    published candidate if there is one. *)
Lemma autopost_single_publish_when_files_ok (env : Env)
    (ledger0 : gmap str (option Z)) :
  (forall j, env_removed env j = true) ->
  (forall j, env_saved_written env j = true) ->
  let run := autopost lower FOOTER_TEXT env ledger0 in
  let pruned := clean_old_posts (env_now env) ledger0 in
  (published run = [] /\ posted_articles run = pruned) \/
  exists post t,
    published run = [post] /\
    posted_articles run = <[art_id (post_article post) := Some t]> pruned /\
    In (post_article post)
       (filter_articles lower pruned
          (load_articles_from_sites (env_sources env))).
Proof.
  intros Hrm Hwr. cbn zeta. unfold autopost.
  destruct (env_clean_written env); cbn [negb];
    [| left; split; reflexivity].
  match goal with
  | |- context [attempts _ _ ?i ?c ?s] =>
    destruct (attempts_files_ok env c Hrm Hwr i s)
      as [H | [art [text [img [j [Hin H]]]]]]; rewrite H
  end.
  - left. split; reflexivity.
  - right. exists (mkPost art text img), (env_now_saved env j).
    cbn. repeat split. eapply In_firstn_In. exact Hin.
Qed.

End OrchestratorFacts.

(** * Worked inputs *)

Lemma lower_char_idem (c : N) : lower_char (lower_char c) = lower_char c.
Proof.
  unfold lower_char.
  destruct (N.leb_spec 65 c), (N.leb_spec c 90), (N.leb_spec 1040 c),
           (N.leb_spec c 1071), (N.eqb_spec c 1025); cbn [andb];
    repeat match goal with
    | |- context [(?a <=? ?b)] => destruct (N.leb_spec a b); cbn [andb]
    | |- context [(?a =? ?b)] => destruct (N.eqb_spec a b)
    end; try reflexivity; lia.
Qed.

Lemma lower_basic_idem (s : str) : lower_basic (lower_basic s) = lower_basic s.
Proof.
  unfold lower_basic. rewrite List.map_map.
  apply List.map_ext. intros c. apply lower_char_idem.
Qed.

Lemma occurs_in_checked (kw text : str) :
  contains kw text = true -> occurs_in kw text.
Proof. apply contains_occurs. Qed.

Lemma no_exclude_checked (text : str) :
  any_in EXCLUDE_KEYWORDS text = false ->
  forall kw, In kw EXCLUDE_KEYWORDS -> ~ occurs_in kw text.
Proof.
  intros Hno kw Hkw Hocc.
  assert (H : any_in EXCLUDE_KEYWORDS text = true).
  { apply any_in_occurs. exists kw. split; assumption. }
  rewrite Hno in H. discriminate.
Qed.

Lemma filter_articles_dedup_witness :
  is_Some (({[ art_id art_world := None ]} : gmap str (option Z))
             !! art_id art_world) /\
  ~ In art_world
       (filter_articles lower_basic {[ art_id art_world := None ]}
                        [art_world; art_single]).
Proof.
  assert (H : is_Some (({[ art_id art_world := None ]} : gmap str (option Z))
                         !! art_id art_world)).
  { exists None. apply lookup_singleton_eq. }
  split; [exact H |].
  apply (filter_articles_dedup lower_basic _ [art_world; art_single] art_world H).
Defined.

Lemma filter_articles_exclusion_witness :
  In (lit "steam") EXCLUDE_KEYWORDS /\
  List.length (matched (article_text lower_basic art_steam)) = 2%nat /\
  ~ In art_steam (filter_articles lower_basic ∅ [art_steam]).
Proof.
  assert (Hkw : In (lit "steam") EXCLUDE_KEYWORDS).
  { apply list_elem_of_In, (bool_decide_unpack _). vm_compute. exact I. }
  split; [exact Hkw |]. split; [vm_compute; reflexivity |].
  apply (filter_articles_exclusion lower_basic ∅ [art_steam] art_steam
           (lit "steam") Hkw).
  apply occurs_in_checked. vm_compute. reflexivity.
Defined.

Lemma filter_articles_locale_dominance_witness :
  Permutation (filter_articles lower_basic ∅ [art_world; art_ru; art_single])
              [art_ru] /\
  ~ In art_world
       (filter_articles lower_basic ∅ [art_world; art_ru; art_single]).
Proof.
  destruct (filter_articles_locale_dominance lower_basic ∅
              [art_world; art_ru; art_single]) as [_ [_ [Hmixed _]]].
  assert (Hb : buckets lower_basic ∅ [art_world; art_ru; art_single]
               = ([art_ru], [art_world])) by (vm_compute; reflexivity).
  rewrite Hb in Hmixed. cbn [fst snd] in Hmixed.
  destruct Hmixed as [Hperm Honly]; [discriminate | discriminate |].
  split; [exact Hperm |].
  intros Hin. apply Honly in Hin as [_ Hnot]. apply Hnot. left. reflexivity.
Defined.

(** The text of [art_world] holds exactly the two require-terms "vpn" and
    "proxy". *)
Lemma art_world_two_terms :
  distinct_matches 2 (lower_basic (art_title art_world ++ [SPACE]
                                   ++ art_summary art_world)).
Proof. apply distinct_matches_score. vm_compute. reflexivity. Qed.

Lemma art_world_no_exclude :
  forall kw, In kw EXCLUDE_KEYWORDS ->
    ~ occurs_in kw (lower_basic (art_title art_world ++ [SPACE]
                                 ++ art_summary art_world)).
Proof. apply no_exclude_checked. vm_compute. reflexivity. Qed.

(** C3 does not hold as stated: [art_world] is new, has no exclude-term and
    exactly two distinct require-terms, and is still left out, because the
    batch also holds the locale-relevant [art_ru]. *)
Lemma two_terms_not_kept_beside_locale :
  In art_world [art_world; art_ru] /\
  (∅ : gmap str (option Z)) !! art_id art_world = None /\
  (forall kw, In kw EXCLUDE_KEYWORDS ->
     ~ occurs_in kw (lower_basic (art_title art_world ++ [SPACE]
                                  ++ art_summary art_world))) /\
  distinct_matches 2 (lower_basic (art_title art_world ++ [SPACE]
                                   ++ art_summary art_world)) /\
  ~ In art_world (filter_articles lower_basic ∅ [art_world; art_ru]).
Proof.
  split; [left; reflexivity |]. split; [apply lookup_empty |].
  split; [exact art_world_no_exclude |]. split; [exact art_world_two_terms |].
  assert (Hout : filter_articles lower_basic ∅ [art_world; art_ru] = [art_ru])
    by (vm_compute; reflexivity).
  rewrite Hout. intros [H | []]. discriminate H.
Qed.

Lemma filter_articles_require_threshold_witness :
  survives lower_basic ∅ art_world = true /\
  (In art_world (filter_articles lower_basic ∅ [art_world; art_single]) <->
   is_locale lower_basic art_world = true \/
   locale_bucket lower_basic ∅ [art_world; art_single] = []).
Proof.
  assert (Hin : In art_world [art_world; art_single]) by (left; reflexivity).
  assert (Hfresh : (∅ : gmap str (option Z)) !! art_id art_world = None)
    by apply lookup_empty.
  destruct (filter_articles_require_threshold lower_basic lower_basic_idem ∅
              [art_world; art_single] art_world Hin Hfresh
              art_world_no_exclude) as [_ Htwo].
  exact (Htwo art_world_two_terms).
Defined.

Lemma single_word_meets_threshold_witness :
  exists text : str,
    words text = [text] /\
    matched (lower_basic text) = [lit "vpn"; lit "openvpn"] /\
    check_require_keywords lower_basic text = true.
Proof.
  apply (single_word_meets_threshold lower_basic). vm_compute. reflexivity.
Defined.

(** C7 does not hold as stated: an entry dated exactly [now - 7*86400] is
    not strictly older than the cutoff, and pruning removes it. *)
Lemma entry_at_cutoff_is_pruned :
  let now := 1700000000%Z in
  let ledger : gmap str (option Z) :=
    {[ lit "https://x/1" := Some (now - 7 * 86400)%Z ]} in
  ledger !! lit "https://x/1" = Some (Some (now - 7 * 86400)%Z) /\
  ~ (now - 7 * 86400 < now - 7 * 86400)%Z /\
  clean_old_posts now ledger !! lit "https://x/1" = None.
Proof.
  cbn zeta. split; [apply lookup_singleton_eq |]. split; [lia |].
  rewrite clean_old_posts_lookup, lookup_singleton_eq. reflexivity.
Qed.

Lemma clean_old_posts_retention_witness :
  let now := 1700000000%Z in
  let ledger : gmap str (option Z) :=
    {[ lit "https://x/1" := Some (now - 8 * 86400)%Z ]} in
  ledger !! lit "https://x/1" = Some (Some (now - 8 * 86400)%Z) /\
  clean_old_posts now ledger !! lit "https://x/1" = None.
Proof.
  cbn zeta.
  assert (H : ({[ lit "https://x/1" := Some (1700000000 - 8 * 86400)%Z ]}
                 : gmap str (option Z)) !! lit "https://x/1"
              = Some (Some (1700000000 - 8 * 86400)%Z))
    by apply lookup_singleton_eq.
  split; [exact H |].
  destruct (clean_old_posts_retention 1700000000
              {[ lit "https://x/1" := Some (1700000000 - 8 * 86400)%Z ]}
              (lit "https://x/1")) as [_ [Hold _]].
  exact (Hold H).
Defined.

(** C9 does not hold as stated: when the model returns 1100 characters the
    result is the first 1024 of them, and nothing of the attribution line is
    left in it. *)
Lemma long_text_loses_attribution :
  let link := lit "https://x/1" in
  let chat := fun _ : str => Some (repeat 97 1100) in
  short_summary [] chat (lit "t") (lit "s") link = Some (repeat 97 1024) /\
  ~ occurs_in (attribution [] link) (repeat 97 1024).
Proof.
  cbn zeta. split; [vm_compute; reflexivity |].
  intros H. apply contains_occurs in H. vm_compute in H. discriminate H.
Qed.

(** ** A run in which deleting the image fails *)

(** C2 fails on the code. The [try] block of [autopost] also covers
    [os.remove] and [save_posted], so an error raised there after a message
    went out is handled like a failed publish and the loop goes on. With two
    candidates: when [os.remove] fails on the first, both are published and
    only the second is recorded; when the ledger write fails on the first,
    both are published and both are in the ledger. *)
Theorem autopost_publishes_twice :
  let run := autopost lower_basic [] env_remove_fails ∅ in
  let run' := autopost lower_basic [] env_write_fails ∅ in
  List.map (fun p => art_id (post_article p)) (published run)
  = [lit "https://x/1"; lit "https://x/5"] /\
  posted_articles run !! lit "https://x/1" = None /\
  posted_articles run !! lit "https://x/5" = Some (Some 1700000001%Z) /\
  List.map (fun p => art_id (post_article p)) (published run')
  = [lit "https://x/1"; lit "https://x/5"] /\
  posted_articles run' !! lit "https://x/1" = Some (Some 1700000001%Z) /\
  posted_articles run' !! lit "https://x/5" = Some (Some 1700000001%Z).
Proof. cbn zeta. repeat split; vm_compute; reflexivity. Qed.

(** * Further properties *)

(** ** The ledger and its file *)

Lemma retained_mono (c c' : Z) (ts : option Z) :
  (c <= c')%Z -> retained c' ts = true -> retained c ts = true.
Proof.
  destruct ts as [t|]; [| reflexivity]. unfold retained.
  rewrite !Z.gtb_gt. lia.
Qed.

(** X1. Pruning once at a later time gives the same ledger as pruning at an
    earlier time and then again at the later one; in particular pruning twice
    at the same time changes nothing more. *)
Theorem clean_old_posts_twice (now now' : Z) (ledger : gmap str (option Z)) :
  (now <= now')%Z ->
  clean_old_posts now' (clean_old_posts now ledger)
  = clean_old_posts now' ledger.
Proof.
  intros Hle. apply map_eq. intros i. rewrite !clean_old_posts_lookup.
  destruct (ledger !! i) as [ts|]; [| reflexivity].
  destruct (retained (now - RETENTION_DAYS * 86400) ts) eqn:R; [reflexivity |].
  destruct (retained (now' - RETENTION_DAYS * 86400) ts) eqn:R';
    [| reflexivity].
  apply (retained_mono (now - RETENTION_DAYS * 86400)) in R';
    [congruence | unfold RETENTION_DAYS; lia].
Qed.

(** X2. Pruning never adds an entry and never changes a timestamp: the pruned
    ledger is a sub-map of the ledger, so it has at most as many entries. *)
Theorem clean_old_posts_shrinks (now : Z) (ledger : gmap str (option Z)) :
  clean_old_posts now ledger ⊆ ledger /\
  (size (clean_old_posts now ledger) <= size ledger)%nat.
Proof.
  assert (H : clean_old_posts now ledger ⊆ ledger)
    by apply map_filter_subseteq.
  split; [exact H | apply map_subseteq_size, H].
Qed.

(** X3. An id recorded at time [t] is found in the ledger with timestamp [t],
    the other entries are untouched, and a later pruning at time [now] keeps
    the new entry exactly while [t > now - 7*86400]. *)
Theorem save_posted_then_clean (t now : Z) (article_id other : str)
    (ledger : gmap str (option Z)) :
  save_posted t article_id ledger !! article_id = Some (Some t) /\
  (other <> article_id ->
   save_posted t article_id ledger !! other = ledger !! other) /\
  clean_old_posts now (save_posted t article_id ledger) !! article_id
  = (if (t >? now - 7 * 86400)%Z then Some (Some t) else None).
Proof.
  unfold save_posted. split; [apply lookup_insert_eq |]. split.
  - intros Hne. apply lookup_insert_ne. congruence.
  - rewrite clean_old_posts_lookup, lookup_insert_eq. reflexivity.
Qed.

Lemma load_items_all (l : list (str * option Z)) (acc : gmap str (option Z)) :
  load_items ((fun p : str * option Z => mkItem (Some p.1) p.2) <$> l) acc
  = Some (fold_left (fun m p => <[p.1 := p.2]> m) l acc).
Proof.
  revert acc. induction l as [|p l IH]; intros acc; [reflexivity |].
  cbn. apply IH.
Qed.

Lemma fold_left_insert_list_to_map (l : list (str * option Z)) :
  fold_left (fun m p => <[p.1 := p.2]> m) l (∅ : gmap str (option Z))
  = list_to_map (rev l).
Proof.
  symmetry.
  exact (fold_left_rev_right
           (fun (p : str * option Z) (m : gmap str (option Z)) =>
              <[p.1 := p.2]> m) l ∅).
Qed.

(** X4. Writing the ledger and reading the file back gives the same ledger,
    in whatever order the items were written. *)
Theorem ledger_file_round_trip (posted_articles : gmap str (option Z))
    (posted_data : list Item) :
  Permutation posted_data (save_posted_articles posted_articles) ->
  load_posted_articles (Some posted_data) = posted_articles.
Proof.
  unfold save_posted_articles, load_posted_articles. intros Hperm.
  apply Permutation_map_inv in Hperm as [l [-> Hl]].
  change (List.map ?f l) with (f <$> l).
  rewrite load_items_all, fold_left_insert_list_to_map. cbn [from_option id].
  etrans; [| apply list_to_map_to_list].
  apply list_to_map_proper.
  - apply (NoDup_Permutation_proper _ _ (Permutation_map fst
             (Permutation_trans (Permutation_sym (Permutation_rev l))
                                (Permutation_sym Hl)))).
    apply NoDup_fst_map_to_list.
  - rewrite <- Permutation_rev. symmetry. exact Hl.
Qed.

Lemma find_snoc {A} (p : A -> bool) (l : list A) (x : A) :
  List.find p (l ++ [x])
  = match List.find p l with
    | Some y => Some y
    | None => if p x then Some x else None
    end.
Proof.
  induction l as [|y l IH]; [reflexivity |].
  cbn. destruct (p y); [reflexivity | exact IH].
Qed.

Lemma load_items_lookup (posted_data : list Item)
    (acc m : gmap str (option Z)) (i : str) :
  load_items posted_data acc = Some m ->
  m !! i = match last_item i posted_data with
           | Some item => Some (item_timestamp item)
           | None => acc !! i
           end.
Proof.
  unfold last_item. revert acc.
  induction posted_data as [|item rest IH]; intros acc H.
  - cbn in H. injection H as <-. reflexivity.
  - cbn [load_items] in H. destruct (item_id item) as [j|] eqn:Ej;
      [| discriminate].
    rewrite (IH _ H). cbn [rev]. rewrite find_snoc.
    destruct (List.find _ (rev rest)); [reflexivity |].
    rewrite Ej. destruct (decide (j = i)) as [-> | Hne].
    + rewrite bool_decide_eq_true_2 by reflexivity. apply lookup_insert_eq.
    + rewrite bool_decide_eq_false_2 by congruence.
      apply lookup_insert_ne. exact Hne.
Qed.

Lemma load_items_some (posted_data : list Item) (acc : gmap str (option Z)) :
  Forall (fun item => item_id item <> None) posted_data ->
  exists m, load_items posted_data acc = Some m.
Proof.
  intros Hall. revert acc.
  induction Hall as [|item rest Hid _ IH]; intros acc; [eexists; reflexivity |].
  cbn. destruct (item_id item); [apply IH | congruence].
Qed.



(** X6. When every item of the file has an [id], the ledger read from it maps
    each id to the timestamp of the last item carrying that id, and holds no
    other id. *)
Theorem load_posted_articles_last_wins (posted_data : list Item) (i : str) :
  Forall (fun item => item_id item <> None) posted_data ->
  load_posted_articles (Some posted_data) !! i
  = item_timestamp <$> last_item i posted_data.
Proof.
  intros Hall. unfold load_posted_articles.
  destruct (load_items_some posted_data ∅ Hall) as [m Hm].
  rewrite Hm. cbn [from_option id]. rewrite (load_items_lookup _ _ _ i Hm).
  destruct (last_item i posted_data); [reflexivity | apply lookup_empty].
Qed.

(** ** More on the relevance filter *)

Section FilterMore.
Variable lower : str -> str.

Lemma filter_all {A} (p : A -> bool) (l : list A) :
  (forall x, In x l -> p x = true) -> List.filter p l = l.
Proof.
  induction l as [|x l IH]; intros H; [reflexivity |].
  cbn. rewrite (H x) by (left; reflexivity).
  rewrite IH; [reflexivity |]. intros y Hy. apply H. right. exact Hy.
Qed.

Lemma filter_none {A} (p : A -> bool) (l : list A) :
  (forall x, In x l -> p x = false) -> List.filter p l = [].
Proof.
  induction l as [|x l IH]; intros H; [reflexivity |].
  cbn. rewrite (H x) by (left; reflexivity).
  apply IH. intros y Hy. apply H. right. exact Hy.
Qed.

Lemma filter_length_bound {A} (p : A -> bool) (l : list A) :
  (List.length (List.filter p l) <= List.length l)%nat.
Proof.
  induction l as [|x l IH]; [reflexivity |].
  cbn. destruct (p x); cbn; lia.
Qed.

Lemma sort_desc_sorted_id {A} (key : A -> Z) (l : list A) :
  newest_first key l -> sort_desc key l = l.
Proof.
  unfold newest_first. induction 1 as [|x l Hs IH Hall]; [reflexivity |].
  cbn [sort_desc]. rewrite IH. destruct l as [|y r]; [reflexivity |].
  cbn [insert_desc]. apply Forall_inv in Hall.
  destruct (Z.leb_spec (key y) (key x)); [reflexivity | lia].
Qed.

Lemma working_set_length ledger articles :
  (List.length (working_set lower ledger articles)
   <= List.length articles)%nat.
Proof.
  unfold working_set, locale_bucket, general_bucket.
  destruct (List.filter _ articles) eqn:E; [| rewrite <- E];
    apply filter_length_bound.
Qed.

Lemma working_set_locale ledger articles :
  exists flag : bool,
    forall e, In e (working_set lower ledger articles) ->
      survives lower ledger e = true /\ is_locale lower e = flag.
Proof.
  unfold working_set, locale_bucket, general_bucket.
  destruct (List.filter _ articles) eqn:E; [exists false | exists true];
    [| rewrite <- E]; intros e He; apply filter_In in He as [_ He];
    apply andb_true_iff in He as [Hs He]; split; try exact Hs;
    [apply negb_true_iff |]; exact He.
Qed.

(** X7. The output of [filter_articles] is never longer than its input (an
    empty batch gives an empty output), and it is all of one kind: either
    every record in it is locale-relevant or none is. *)
Theorem filter_articles_bounded_uniform (ledger : gmap str (option Z))
    (articles : list Article) :
  let out := filter_articles lower ledger articles in
  (List.length out <= List.length articles)%nat /\
  exists flag : bool, forall e, In e out -> is_locale lower e = flag.
Proof.
  cbn zeta. rewrite filter_articles_eq. split.
  - rewrite (Permutation_length (sort_desc_perm _ _)).
    apply working_set_length.
  - destruct (working_set_locale ledger articles) as [flag H].
    exists flag. intros e He. apply sort_desc_In in He. apply H, He.
Qed.

Lemma working_set_fixed ledger (l : list Article) (flag : bool) :
  (forall e, In e l ->
     survives lower ledger e = true /\ is_locale lower e = flag) ->
  working_set lower ledger l = l.
Proof.
  intros H. unfold working_set, locale_bucket, general_bucket.
  destruct flag.
  - rewrite (filter_all _ l).
    + destruct l; [| reflexivity]. reflexivity.
    + intros e He. destruct (H e He) as [-> ->]. reflexivity.
  - rewrite (filter_none (fun e => survives lower ledger e && is_locale lower e) l).
    + apply filter_all. intros e He. destruct (H e He) as [-> ->]. reflexivity.
    + intros e He. destruct (H e He) as [-> ->]. reflexivity.
Qed.

(** X8. Filtering is idempotent: running [filter_articles] on its own output,
    with the same ledger, returns that output unchanged. *)
Theorem filter_articles_idempotent (ledger : gmap str (option Z))
    (articles : list Article) :
  filter_articles lower ledger (filter_articles lower ledger articles)
  = filter_articles lower ledger articles.
Proof.
  rewrite (filter_articles_eq lower ledger (filter_articles _ _ _)).
  destruct (working_set_locale ledger articles) as [flag H].
  rewrite (working_set_fixed ledger _ flag).
  - rewrite filter_articles_eq. apply sort_desc_sorted_id, sort_desc_sorted.
  - intros e He. rewrite filter_articles_eq in He.
    apply sort_desc_In in He. apply H, He.
Qed.

Lemma survives_ext (ledger1 ledger2 : gmap str (option Z)) (e : Article) :
  (is_Some (ledger1 !! art_id e) <-> is_Some (ledger2 !! art_id e)) ->
  survives lower ledger1 e = survives lower ledger2 e.
Proof.
  intros H. unfold survives, in_ledger.
  rewrite (bool_decide_ext _ _ H). reflexivity.
Qed.

(** X9. Only the ids in the ledger matter to the filter, not their
    timestamps: two ledgers with the same keys give the same output. *)
Theorem filter_articles_ledger_keys (ledger1 ledger2 : gmap str (option Z))
    (articles : list Article) :
  (forall i, is_Some (ledger1 !! i) <-> is_Some (ledger2 !! i)) ->
  filter_articles lower ledger1 articles
  = filter_articles lower ledger2 articles.
Proof.
  intros H. rewrite !filter_articles_eq. f_equal.
  unfold working_set, locale_bucket, general_bucket.
  rewrite (List.filter_ext
             (fun e => survives lower ledger1 e && is_locale lower e)
             (fun e => survives lower ledger2 e && is_locale lower e))
    by (intros e; rewrite (survives_ext ledger1 ledger2 e (H _)); reflexivity).
  rewrite (List.filter_ext
             (fun e => survives lower ledger1 e && negb (is_locale lower e))
             (fun e => survives lower ledger2 e && negb (is_locale lower e)))
    by (intros e; rewrite (survives_ext ledger1 ledger2 e (H _)); reflexivity).
  reflexivity.
Qed.

(** X10. Recording an id removes from the filter's survivors exactly the
    records with that id: no record with the recorded id is in a later
    output, and every other record passes the tests as before. *)
Theorem save_posted_then_filter (t : Z) (article_id : str)
    (ledger : gmap str (option Z)) (articles : list Article) :
  (forall e, In e (filter_articles lower (save_posted t article_id ledger)
                                   articles) ->
     art_id e <> article_id) /\
  (forall e, survives lower (save_posted t article_id ledger) e
     = survives lower ledger e && negb (bool_decide (art_id e = article_id))).
Proof.
  assert (Hs : forall e, survives lower (save_posted t article_id ledger) e
     = survives lower ledger e && negb (bool_decide (art_id e = article_id))).
  { intros e. unfold survives, in_ledger, save_posted.
    destruct (decide (art_id e = article_id)) as [-> | Hne].
    - rewrite lookup_insert_eq.
      rewrite (bool_decide_eq_true_2 (is_Some (Some _))) by eauto.
      rewrite (bool_decide_eq_true_2 (article_id = article_id)) by reflexivity.
      cbn [negb andb]. rewrite andb_false_r. reflexivity.
    - rewrite lookup_insert_ne by congruence.
      rewrite (bool_decide_eq_false_2 (art_id e = article_id)) by exact Hne.
      cbn [negb]. rewrite andb_true_r. reflexivity. }
  split; [| exact Hs].
  intros e He Heq. apply filter_articles_In in He as [_ He].
  rewrite Hs, (bool_decide_eq_true_2 _ Heq), andb_false_r in He.
  discriminate.
Qed.

(** X11. After pruning, a record counts as already posted exactly when its
    id has a null timestamp or a timestamp newer than [now - 7*86400]: an
    article posted more than seven days ago is eligible again, one with a
    null timestamp never is. *)
Theorem in_ledger_after_pruning (now : Z) (ledger : gmap str (option Z))
    (e : Article) :
  in_ledger (clean_old_posts now ledger) e
  = match ledger !! art_id e with
    | Some None => true
    | Some (Some ts) => (ts >? now - 7 * 86400)%Z
    | None => false
    end.
Proof.
  unfold in_ledger. rewrite clean_old_posts_lookup.
  destruct (ledger !! art_id e) as [[ts|]|]; cbn [retained].
  - change (RETENTION_DAYS * 86400)%Z with (7 * 86400)%Z.
    destruct (ts >? now - 7 * 86400)%Z.
    + apply bool_decide_eq_true_2. eauto.
    + apply bool_decide_eq_false_2. intros [x Hx]. discriminate.
  - apply bool_decide_eq_true_2. eauto.
  - apply bool_decide_eq_false_2. intros [x Hx]. discriminate.
Qed.

End FilterMore.

(** ** More on the rewriter and the orchestrator *)

Lemma attribution_length (FOOTER_TEXT link : str) :
  (12 <= List.length (attribution FOOTER_TEXT link))%nat.
Proof.
  unfold attribution. rewrite !length_app.
  change (List.length [LF; LF]) with 2%nat.
  change (List.length (lit "Источник: ")) with 10%nat. lia.
Qed.

Lemma upto_length_min (n : nat) (s : str) :
  List.length (upto n s) = Nat.min n (List.length s).
Proof. unfold upto. apply length_firstn. Qed.

Lemma final_text_length (FOOTER_TEXT core link : str) :
  (12 <= List.length (upto 1024 (core ++ attribution FOOTER_TEXT link))
   <= 1024)%nat.
Proof.
  rewrite upto_length_min, length_app.
  pose proof (attribution_length FOOTER_TEXT link). lia.
Qed.

Lemma final_text_not_empty (FOOTER_TEXT core link : str) :
  upto 1024 (core ++ attribution FOOTER_TEXT link) <> [].
Proof.
  pose proof (final_text_length FOOTER_TEXT core link) as H.
  destruct (upto 1024 (core ++ attribution FOOTER_TEXT link));
    [cbn [List.length] in H; lia | discriminate].
Qed.

(** X12. A result of [short_summary] is never the empty string: it has at
    least the 12 characters that open the attribution line, and at most 1024.
    So the test [if not text] of [autopost] skips a candidate only when the
    model call failed. *)
Theorem short_summary_not_empty (FOOTER_TEXT : str) (chat : str -> option str)
    (title summary link out : str) :
  short_summary FOOTER_TEXT chat title summary link = Some out ->
  (12 <= List.length out <= 1024)%nat /\ out <> [].
Proof.
  unfold short_summary.
  destruct (chat (prompt_of title summary)) as [content|]; [| discriminate].
  intros H. apply (inj Some) in H. rewrite <- H.
  split; [apply final_text_length | apply final_text_not_empty].
Qed.

Lemma short_summary_length (FOOTER_TEXT : str) (chat : str -> option str)
    (title summary link out : str) :
  short_summary FOOTER_TEXT chat title summary link = Some out ->
  (List.length out <= 1024)%nat.
Proof.
  unfold short_summary.
  destruct (chat (prompt_of title summary)); [| discriminate].
  intros H. apply (inj Some) in H. rewrite <- H. apply upto_length.
Qed.

Section OrchestratorMore.
Variable lower : str -> str.
Variable FOOTER_TEXT : str.

(** What the loop did, whatever failed on the way: the posts it added, in
    the order of the candidates, and where the ledger changed. *)
Lemma attempts_trace (env : Env) (candidates : list Article) :
  forall (i : nat) (st : Run),
    let run := attempts FOOTER_TEXT env i candidates st in
    exists posts : list Post,
      published run = published st ++ posts /\
      sublist (List.map post_article posts) candidates /\
      (forall p, In p posts ->
         post_text p <> [] /\ (List.length (post_text p) <= 1024)%nat) /\
      (forall j,
         posted_articles run !! j = posted_articles st !! j \/
         exists p t, In p posts /\ art_id (post_article p) = j /\
                     posted_articles run !! j = Some (Some t)).
Proof.
  induction candidates as [|art rest IH]; intros i st; cbn zeta.
  - exists []. cbn [attempts]. rewrite app_nil_r.
    split; [reflexivity |]. split; [apply sublist_nil |].
    split; [intros p [] | intros j; left; reflexivity].
  - cbn [attempts].
    assert (Hskip :
      exists posts : list Post,
        published (attempts FOOTER_TEXT env (S i) rest st)
        = published st ++ posts /\
        sublist (List.map post_article posts) (art :: rest) /\
        (forall p, In p posts ->
           post_text p <> [] /\ (List.length (post_text p) <= 1024)%nat) /\
        (forall j,
           posted_articles (attempts FOOTER_TEXT env (S i) rest st) !! j
           = posted_articles st !! j \/
           exists p t, In p posts /\ art_id (post_article p) = j /\
             posted_articles (attempts FOOTER_TEXT env (S i) rest st) !! j
             = Some (Some t))).
    { destruct (IH (S i) st) as [posts [Hp [Hs [Ht Hl]]]].
      exists posts. repeat split; try assumption; try (apply Ht; assumption).
      apply sublist_cons. exact Hs. }
    destruct (short_summary FOOTER_TEXT (env_chat env i) (art_title art)
                (art_summary art) (art_link art)) as [[|c text]|] eqn:Hsum;
      try exact Hskip.
    destruct (env_sent env i); cbn [negb]; [| exact Hskip].
    set (img := match env_image env i with
                | Some (c0 :: f) => Some (c0 :: f)
                | _ => None
                end).
    set (post := mkPost art (c :: text) img).
    assert (Htext : post_text post <> [] /\
                    (List.length (post_text post) <= 1024)%nat).
    { split; [discriminate |].
      exact (short_summary_length _ _ _ _ _ _ Hsum). }
    destruct (bool_decide (is_Some img) && negb (env_removed env i)).
    + match goal with
      | |- context [attempts _ _ _ _ ?s] =>
        destruct (IH (S i) s) as [posts [Hp [Hs [Ht Hl]]]]
      end.
      cbn [published posted_articles] in Hp, Hl.
      exists (post :: posts). split; [| split; [| split]].
      * rewrite Hp, <- app_assoc. reflexivity.
      * cbn [List.map post_article post]. apply sublist_skip. exact Hs.
      * intros p [<- | Hin]; [exact Htext | apply Ht, Hin].
      * intros j. destruct (Hl j) as [H | [p [t [Hin [Hid H]]]]];
          [left; exact H | right].
        exists p, t. split; [right; exact Hin | split; assumption].
    + cbn zeta. cbn [published posted_articles].
      destruct (env_saved_written env i).
      * cbn [published posted_articles].
        exists [post]. split; [reflexivity |]. split; [| split].
        -- cbn [List.map post_article post]. apply sublist_skip, sublist_nil_l.
        -- intros p [<- | []]. exact Htext.
        -- intros j. unfold save_posted.
           destruct (decide (art_id art = j)) as [<- | Hne].
           ++ right. exists post, (env_now_saved env i).
              split; [left; reflexivity |]. split; [reflexivity |].
              apply lookup_insert_eq.
           ++ left. apply lookup_insert_ne. exact Hne.
      * match goal with
        | |- context [attempts _ _ _ _ ?s] =>
          destruct (IH (S i) s) as [posts [Hp [Hs [Ht Hl]]]]
        end.
        cbn [published posted_articles] in Hp, Hl.
        exists (post :: posts). split; [| split; [| split]].
        -- rewrite Hp, <- app_assoc. reflexivity.
        -- cbn [List.map post_article post]. apply sublist_skip. exact Hs.
        -- intros p [<- | Hin]; [exact Htext | apply Ht, Hin].
        -- intros j. destruct (Hl j) as [H | [p [t [Hin [Hid H]]]]].
           ++ unfold save_posted in H |- *.
              destruct (decide (art_id art = j)) as [<- | Hne].
              ** right. exists post, (env_now_saved env i).
                 split; [left; reflexivity |]. split; [reflexivity |].
                 rewrite H. apply lookup_insert_eq.
              ** left. rewrite H. apply lookup_insert_ne. exact Hne.
           ++ right. exists p, t.
              split; [right; exact Hin | split; assumption].
Qed.

(** X13. Whatever fails during a run, the ledger afterwards differs from the
    pruned ledger only at ids of candidates that were published, and these
    carry a timestamp: a candidate whose rewrite or publish failed is never
    recorded, and no entry of the pruned ledger is lost. *)
Theorem autopost_ledger_growth (env : Env) (ledger0 : gmap str (option Z))
    (j : str) :
  let run := autopost lower FOOTER_TEXT env ledger0 in
  let pruned := clean_old_posts (env_now env) ledger0 in
  posted_articles run !! j = pruned !! j \/
  exists post t,
    In post (published run) /\ art_id (post_article post) = j /\
    posted_articles run !! j = Some (Some t).
Proof.
  cbn zeta. unfold autopost.
  destruct (env_clean_written env); cbn [negb]; [| left; reflexivity].
  match goal with
  | |- context [attempts _ _ ?i ?c ?s] =>
    destruct (attempts_trace env c i s) as [posts [Hp [_ [_ Hl]]]]
  end.
  cbn [published posted_articles app] in Hp, Hl. rewrite Hp. apply Hl.
Qed.

(** X14. The messages a run publishes come from the first five ranked
    candidates, in rank order and at most once per position, so there are at
    most five; none of them has its id in the pruned ledger, and every text
    sent is non-empty and at most 1024 characters long. *)
Theorem autopost_publishes_top_candidates (env : Env)
    (ledger0 : gmap str (option Z)) :
  let run := autopost lower FOOTER_TEXT env ledger0 in
  let pruned := clean_old_posts (env_now env) ledger0 in
  let candidates :=
    filter_articles lower pruned (load_articles_from_sites (env_sources env)) in
  sublist (List.map post_article (published run)) (firstn 5 candidates) /\
  (List.length (published run) <= 5)%nat /\
  forall post, In post (published run) ->
    pruned !! art_id (post_article post) = None /\
    post_text post <> [] /\ (List.length (post_text post) <= 1024)%nat.
Proof.
  cbn zeta. unfold autopost.
  destruct (env_clean_written env); cbn [negb].
  - match goal with
    | |- context [attempts _ _ ?i ?c ?s] =>
      destruct (attempts_trace env c i s) as [posts [Hp [Hs [Ht _]]]]
    end.
    cbn [published app] in Hp. rewrite Hp. split; [exact Hs |]. split.
    + apply sublist_length in Hs.
      rewrite length_map, length_firstn in Hs. lia.
    + intros post Hin. split; [| apply Ht, Hin].
      assert (Hc : In (post_article post)
                     (firstn 5 (filter_articles lower
                        (clean_old_posts (env_now env) ledger0)
                        (load_articles_from_sites (env_sources env))))).
      { apply list_elem_of_In. eapply elem_of_sublist; [| exact Hs].
        apply list_elem_of_In, in_map, Hin. }
      apply In_firstn_In, filter_articles_In in Hc as [_ Hc].
      unfold survives, in_ledger in Hc.
      destruct (clean_old_posts (env_now env) ledger0
                  !! art_id (post_article post)) as [v|] eqn:E;
        [| reflexivity].
      rewrite bool_decide_eq_true_2 in Hc by eauto. discriminate.
  - cbn. split; [apply sublist_nil_l |]. split; [lia | intros post []].
Qed.

Lemma filter_articles_saturated (ledger : gmap str (option Z))
    (articles : list Article) :
  (forall e, In e articles -> is_Some (ledger !! art_id e)) ->
  filter_articles lower ledger articles = [].
Proof.
  intros Hall. destruct (filter_articles lower ledger articles) as [|e l] eqn:E;
    [reflexivity |].
  assert (He : In e (filter_articles lower ledger articles))
    by (rewrite E; left; reflexivity).
  apply filter_articles_In in He as [Hin He].
  unfold survives, in_ledger in He.
  rewrite bool_decide_eq_true_2 in He by (apply Hall, Hin). discriminate.
Qed.

(** X15. A run with nothing new is a no-op: when every fetched record has
    its id in the pruned ledger, nothing is published and the ledger is the
    pruned one. *)
Theorem autopost_nothing_new (env : Env) (ledger0 : gmap str (option Z)) :
  let run := autopost lower FOOTER_TEXT env ledger0 in
  let pruned := clean_old_posts (env_now env) ledger0 in
  (forall e, In e (load_articles_from_sites (env_sources env)) ->
     is_Some (pruned !! art_id e)) ->
  published run = [] /\ posted_articles run = pruned.
Proof.
  cbn zeta. intros Hall. unfold autopost.
  destruct (env_clean_written env); cbn [negb]; [| split; reflexivity].
  rewrite (filter_articles_saturated _ _ Hall). split; reflexivity.
Qed.

Lemma attempts_all_fail (env : Env) (candidates : list Article) :
  (forall i, (forall prompt, env_chat env i prompt = None) \/
             env_sent env i = false) ->
  forall (i : nat) (st : Run), attempts FOOTER_TEXT env i candidates st = st.
Proof.
  intros Hfail. induction candidates as [|art rest IH]; intros i st;
    [reflexivity |].
  cbn [attempts]. unfold short_summary.
  destruct (Hfail i) as [Hchat | Hsent].
  - rewrite Hchat. apply IH.
  - destruct (env_chat env i _); [| apply IH].
    destruct (upto 1024 _); [apply IH |].
    rewrite Hsent. cbn [negb]. apply IH.
Qed.

(** X16. When for every candidate either the model call or the send fails,
    the run publishes nothing and leaves the pruned ledger as it is. *)
Theorem autopost_all_attempts_fail (env : Env)
    (ledger0 : gmap str (option Z)) :
  (forall i, (forall prompt, env_chat env i prompt = None) \/
             env_sent env i = false) ->
  published (autopost lower FOOTER_TEXT env ledger0) = [] /\
  posted_articles (autopost lower FOOTER_TEXT env ledger0)
  = clean_old_posts (env_now env) ledger0.
Proof.
  intros Hfail. unfold autopost.
  destruct (env_clean_written env); cbn [negb]; [| split; reflexivity].
  rewrite (attempts_all_fail env _ Hfail). split; reflexivity.
Qed.

(** X17. When the first write succeeds and the top-ranked candidate is
    rewritten, sent, its image deleted and the ledger written, the run
    publishes that candidate alone, with the text of [short_summary], and
    records its id, in memory and in the file. *)
Theorem autopost_publishes_first (env : Env) (ledger0 : gmap str (option Z))
    (art : Article) (rest : list Article) (content : str) :
  let pruned := clean_old_posts (env_now env) ledger0 in
  let recorded := save_posted (env_now_saved env 0) (art_id art) pruned in
  filter_articles lower pruned (load_articles_from_sites (env_sources env))
  = art :: rest ->
  env_clean_written env = true ->
  env_chat env 0%nat (prompt_of (art_title art) (art_summary art))
  = Some content ->
  env_sent env 0%nat = true ->
  env_removed env 0%nat = true ->
  env_saved_written env 0%nat = true ->
  let run := autopost lower FOOTER_TEXT env ledger0 in
  List.map post_article (published run) = [art] /\
  List.map post_text (published run)
  = [upto 1024 (strip content ++ attribution FOOTER_TEXT (art_link art))] /\
  posted_articles run = recorded /\
  posted_file run = Some recorded.
Proof.
  cbn zeta. intros Hc Hw Hchat Hsent Hrm Hsw. unfold autopost.
  rewrite Hw, Hc. cbn [negb firstn attempts].
  unfold short_summary. rewrite Hchat. cbn zeta.
  pose proof (final_text_not_empty FOOTER_TEXT (strip content) (art_link art))
    as Hne.
  destruct (upto 1024 (strip content ++ attribution FOOTER_TEXT (art_link art)))
    as [|c text]; [congruence |].
  rewrite Hsent, Hrm, andb_false_r, Hsw. cbn [negb]. repeat split.
Qed.

Lemma attempts_file (env : Env) (candidates : list Article) :
  (forall j, env_saved_written env j = true) ->
  forall (i : nat) (st : Run),
    posted_file st = Some (posted_articles st) ->
    posted_file (attempts FOOTER_TEXT env i candidates st)
    = Some (posted_articles (attempts FOOTER_TEXT env i candidates st)).
Proof.
  intros Hw. induction candidates as [|art rest IH]; intros i st Hst;
    [exact Hst |].
  cbn [attempts].
  destruct (short_summary _ _ _ _ _) as [[|c text]|]; try (apply IH, Hst).
  destruct (env_sent env i); cbn [negb]; [| apply IH, Hst].
  destruct (bool_decide _ && negb (env_removed env i)).
  - apply IH. exact Hst.
  - rewrite Hw. reflexivity.
Qed.

(** X18. While no write of the ledger file fails, the file mirrors the
    in-memory ledger at the end of the run. *)
Theorem autopost_file_mirrors_ledger (env : Env)
    (ledger0 : gmap str (option Z)) :
  env_clean_written env = true ->
  (forall j, env_saved_written env j = true) ->
  posted_file (autopost lower FOOTER_TEXT env ledger0)
  = Some (posted_articles (autopost lower FOOTER_TEXT env ledger0)).
Proof.
  intros Hc Hw. unfold autopost. rewrite Hc. cbn [negb].
  apply attempts_file; [exact Hw | reflexivity].
Qed.

End OrchestratorMore.

(** ** White-space normalisation *)

Lemma words_go_map (f : N -> N) (s cur : str) :
  (forall c, isspace (f c) = isspace c) ->
  (forall c, isspace c = false -> f c = c) ->
  words_go (List.map f s) cur = words_go s cur.
Proof.
  intros Hsp Hid. revert cur. induction s as [|c s IH]; intros cur;
    [reflexivity |].
  cbn [List.map words_go]. rewrite Hsp. destruct (isspace c) eqn:E.
  - destruct cur; rewrite IH; reflexivity.
  - rewrite (Hid c E). apply IH.
Qed.

Lemma words_go_app_word (w s cur : str) :
  (forall c, In c w -> isspace c = false) ->
  words_go (w ++ s) cur = words_go s (rev w ++ cur).
Proof.
  revert cur. induction w as [|c w IH]; intros cur Hw; [reflexivity |].
  cbn [app words_go]. rewrite (Hw c) by (left; reflexivity).
  rewrite IH by (intros d Hd; apply Hw; right; exact Hd).
  cbn [rev]. rewrite <- app_assoc. reflexivity.
Qed.

Lemma rev_is_word (cur : str) :
  cur <> [] -> (forall c, In c cur -> isspace c = false) -> is_word (rev cur).
Proof.
  intros Hne Hc. split.
  - intros E. apply Hne. rewrite <- (rev_involutive cur), E. reflexivity.
  - intros c Hin. apply Hc, in_rev, Hin.
Qed.

Lemma words_go_is_word (s cur : str) :
  (forall c, In c cur -> isspace c = false) ->
  List.Forall is_word (words_go s cur).
Proof.
  revert cur. induction s as [|c s IH]; intros cur Hcur; cbn [words_go].
  - destruct cur as [|d cur]; constructor; [| constructor].
    apply rev_is_word; [discriminate | exact Hcur].
  - destruct (isspace c) eqn:E.
    + destruct cur as [|d cur]; [apply IH; intros x [] |].
      constructor; [apply rev_is_word; [discriminate | exact Hcur] |].
      apply IH. intros x [].
    + apply IH. intros x [<- | Hx]; [exact E | apply Hcur, Hx].
Qed.

Lemma words_is_word (s : str) : List.Forall is_word (words s).
Proof. apply words_go_is_word. intros c []. Qed.

Lemma words_go_single (w : str) :
  is_word w -> words_go w [] = [w].
Proof.
  intros [Hne Hw]. rewrite <- (app_nil_r w) at 1.
  rewrite (words_go_app_word w [] [] Hw), app_nil_r. cbn [words_go].
  destruct (rev w) eqn:E; [| rewrite <- E, rev_involutive; reflexivity].
  exfalso. apply Hne. rewrite <- (rev_involutive w), E. reflexivity.
Qed.

Lemma words_join (ws : list str) :
  List.Forall is_word ws -> words (join [SPACE] ws) = ws.
Proof.
  unfold words. induction 1 as [|w ws Hw Hws IH]; [reflexivity |].
  destruct ws as [|w' ws].
  - cbn [join]. apply words_go_single, Hw.
  - change (join [SPACE] (w :: w' :: ws))
      with (w ++ SPACE :: join [SPACE] (w' :: ws)).
    destruct Hw as [Hne Hw].
    rewrite (words_go_app_word w _ [] Hw), app_nil_r. cbn [words_go].
    change (isspace SPACE) with true. cbv iota.
    destruct (rev w) eqn:E.
    + exfalso. apply Hne. rewrite <- (rev_involutive w), E. reflexivity.
    + rewrite <- E, rev_involutive, IH. reflexivity.
Qed.

(** The two [replace] calls of [clean_text] change nothing in the result:
    line feeds and carriage returns are white space already. *)
Lemma clean_text_join (text : str) :
  clean_text text = join [SPACE] (words text).
Proof.
  unfold clean_text, words, replace. rewrite !words_go_map; try reflexivity.
  - intros c. destruct (N.eqb_spec c LF) as [-> |]; reflexivity.
  - intros c Hc. destruct (N.eqb_spec c LF) as [-> |]; [discriminate Hc |].
    reflexivity.
  - intros c. destruct (N.eqb_spec c CR) as [-> |]; reflexivity.
  - intros c Hc. destruct (N.eqb_spec c CR) as [-> |]; [discriminate Hc |].
    reflexivity.
Qed.

Lemma clean_text_fixed (text : str) :
  clean_text (clean_text text) = clean_text text.
Proof.
  rewrite (clean_text_join (clean_text text)), (clean_text_join text).
  rewrite words_join by apply words_is_word. reflexivity.
Qed.

(** X19. [clean_text] is idempotent: cleaning a cleaned text changes
    nothing. *)
Theorem clean_text_idempotent (text : str) :
  clean_text (clean_text text) = clean_text text
  /\ words (clean_text text) = words text.
Proof.
  split; [apply clean_text_fixed |].
  rewrite clean_text_join. apply words_join, words_is_word.
Qed.

Lemma In_join (sep : str) (ws : list str) (c : N) :
  In c (join sep ws) -> In c sep \/ exists w, In w ws /\ In c w.
Proof.
  induction ws as [|w ws IH]; [intros [] |].
  destruct ws as [|w' ws].
  - cbn [join]. intros H. right. exists w. split; [left; reflexivity | exact H].
  - change (join sep (w :: w' :: ws)) with (w ++ sep ++ join sep (w' :: ws)).
    rewrite !in_app_iff. intros [H | [H | H]].
    + right. exists w. split; [left; reflexivity | exact H].
    + left. exact H.
    + destruct (IH H) as [Hs | [x [Hx Hc]]]; [left; exact Hs | right].
      exists x. split; [right; exact Hx | exact Hc].
Qed.

Lemma lstrip_head_not_space (s : str) : head_not_space s -> lstrip s = s.
Proof. destruct s as [|c s]; [reflexivity |]. cbn. intros ->. reflexivity. Qed.

Lemma head_not_space_app (a b : str) :
  a <> [] -> head_not_space a -> head_not_space (a ++ b).
Proof. destruct a; [congruence | intros _ H; exact H]. Qed.

Lemma is_word_head (w : str) : is_word w -> head_not_space w.
Proof.
  intros [_ Hw]. destruct w as [|c w]; [exact I |].
  apply Hw. left. reflexivity.
Qed.

Lemma is_word_rev (w : str) : is_word w -> is_word (rev w).
Proof. intros [Hne Hw]. apply rev_is_word; assumption. Qed.

Lemma join_head (ws : list str) :
  List.Forall is_word ws -> head_not_space (join [SPACE] ws).
Proof.
  destruct 1 as [|w ws Hw Hws]; [exact I |].
  destruct ws as [|w' ws]; [apply is_word_head, Hw |].
  change (join [SPACE] (w :: w' :: ws))
    with (w ++ [SPACE] ++ join [SPACE] (w' :: ws)).
  apply head_not_space_app; [apply Hw | apply is_word_head, Hw].
Qed.

Lemma join_last (ws : list str) :
  List.Forall is_word ws -> head_not_space (rev (join [SPACE] ws)).
Proof.
  induction 1 as [|w ws Hw Hws IH]; [exact I |].
  destruct ws as [|w' ws]; [apply is_word_head, is_word_rev, Hw |].
  change (join [SPACE] (w :: w' :: ws))
    with (w ++ [SPACE] ++ join [SPACE] (w' :: ws)).
  rewrite !rev_app_distr, <- app_assoc.
  apply head_not_space_app; [| exact IH].
  inversion Hws as [|? ? Hw' _]; subst.
  destruct w' as [|c w']; [destruct Hw' as [Hne _]; congruence |].
  destruct ws as [|w'' ws].
  - cbn [join]. intros E. apply (f_equal (@rev N)) in E.
    rewrite rev_involutive in E. discriminate E.
  - change (join [SPACE] ((c :: w') :: w'' :: ws))
      with (c :: (w' ++ [SPACE] ++ join [SPACE] (w'' :: ws))).
    intros E. apply (f_equal (@rev N)) in E.
    rewrite rev_involutive in E. discriminate E.
Qed.

Lemma join_no_double_space (ws : list str) :
  List.Forall is_word ws ->
  forall pre post, join [SPACE] ws <> pre ++ [SPACE; SPACE] ++ post.
Proof.
  induction 1 as [|w ws Hw Hws IH]; intros pre post E.
  - destruct pre; discriminate E.
  - assert (Hsp : forall l a b, l = a ++ [SPACE; SPACE] ++ b -> In SPACE l).
    { intros l a b ->. apply in_app_iff. right. left. reflexivity. }
    destruct ws as [|w' ws].
    + cbn [join] in E. destruct Hw as [_ Hw].
      specialize (Hw SPACE (Hsp _ _ _ E)). discriminate Hw.
    + change (join [SPACE] (w :: w' :: ws))
        with (w ++ SPACE :: join [SPACE] (w' :: ws)) in E.
      apply app_eq_app in E as [k [[E1 E2] | [E1 E2]]].
      * (* the double space starts inside [w] *)
        destruct k as [|d k].
        -- cbn [app] in E2.
           assert (E3 : SPACE :: post = join [SPACE] (w' :: ws))
             by congruence.
           pose proof (join_head (w' :: ws) Hws) as Hh.
           rewrite <- E3 in Hh. discriminate Hh.
        -- cbn [app] in E2. injection E2 as <- E2. destruct Hw as [_ Hw].
           assert (In SPACE w)
             by (rewrite E1; apply in_app_iff; right; left; reflexivity).
           specialize (Hw SPACE H). discriminate Hw.
      * (* the double space starts after [w] *)
        destruct k as [|d k].
        -- cbn [app] in E2.
           assert (E3 : join [SPACE] (w' :: ws) = SPACE :: post)
             by congruence.
           pose proof (join_head (w' :: ws) Hws) as Hh.
           rewrite E3 in Hh. discriminate Hh.
        -- cbn [app] in E2. injection E2 as <- E2.
           exact (IH k post E2).
Qed.

(** X20. A cleaned text is white-space normalised: the only white-space
    character left in it is the plain space (no line feed, carriage return
    or tab), it neither begins nor ends with white space, and it has no two
    spaces in a row. *)
Theorem clean_text_normalised (text : str) :
  (forall c, In c (clean_text text) -> isspace c = true -> c = SPACE) /\
  strip (clean_text text) = clean_text text /\
  ~ occurs_in [SPACE; SPACE] (clean_text text).
Proof.
  rewrite clean_text_join. pose proof (words_is_word text) as Hws.
  split; [| split].
  - intros c Hin Hsp. apply In_join in Hin as [[<- | []] | [w [Hw Hc]]];
      [reflexivity |].
    rewrite List.Forall_forall in Hws. destruct (Hws w Hw) as [_ Hns].
    rewrite (Hns c Hc) in Hsp. discriminate Hsp.
  - unfold strip.
    rewrite (lstrip_head_not_space _ (join_head _ Hws)).
    rewrite (lstrip_head_not_space _ (join_last _ Hws)).
    apply rev_involutive.
  - intros [pre [post E]]. exact (join_no_double_space _ Hws pre post E).
Qed.

Lemma words_go_nil (s cur : str) :
  words_go s cur = [] <-> cur = [] /\ forallb isspace s = true.
Proof.
  revert cur. induction s as [|c s IH]; intros cur; cbn [words_go forallb].
  - destruct cur; split; try tauto; try discriminate.
    intros [H _]. discriminate H.
  - destruct (isspace c) eqn:E; cbn [andb].
    + destruct cur as [|d cur].
      * rewrite IH. tauto.
      * split; [discriminate | intros [H _]; discriminate H].
    + rewrite IH. split; [intros [H _]; discriminate H |].
      intros [_ H]. discriminate H.
Qed.

(** X21. The cleaned text is empty exactly when the text has nothing but
    white space in it. *)
Theorem clean_text_empty (text : str) :
  clean_text text = [] <-> forallb isspace text = true.
Proof.
  rewrite clean_text_join. pose proof (words_is_word text) as Hws.
  unfold words in *. split.
  - intros E. destruct (words_go text []) as [|w ws] eqn:Ew.
    + apply words_go_nil in Ew as [_ H]. exact H.
    + exfalso. pose proof (join_head (w :: ws) Hws) as Hh.
      inversion Hws as [|? ? [Hne _] _]; subst.
      destruct ws as [|w' ws]; [cbn [join] in E; congruence |].
      change (join [SPACE] (w :: w' :: ws))
        with (w ++ [SPACE] ++ join [SPACE] (w' :: ws)) in E.
      apply app_eq_nil in E as [E _]. congruence.
  - intros H.
    assert (Ew : words_go text [] = []) by (apply words_go_nil; auto).
    rewrite Ew. reflexivity.
Qed.

(** ** More on the source adapters *)

Lemma concat_imap_length {A B} (f : nat -> A -> list B) (l : list A) :
  (forall i x, (List.length (f i x) <= 1)%nat) ->
  (List.length (concat (imap f l)) <= List.length l)%nat.
Proof.
  revert f. induction l as [|x l IH]; intros f Hf; [reflexivity |].
  cbn [imap concat]. rewrite length_app. cbn [List.length].
  specialize (IH (f ∘ S) (fun i y => Hf (S i) y)).
  specialize (Hf 0%nat x). lia.
Qed.

Lemma firstn_length_le {A} (n : nat) (l : list A) :
  (List.length (firstn n l) <= n)%nat.
Proof. rewrite length_firstn. lia. Qed.

Lemma load_rss_length (clock : nat -> Z) (entries : list Entry)
    (source : str) :
  (List.length (load_rss clock entries source) <= 30)%nat.
Proof.
  unfold load_rss.
  etrans; [apply concat_imap_length | apply firstn_length_le].
  intros i x. destruct (_ && _); cbn; lia.
Qed.

Lemma load_3dnews_length (clock : nat -> Z) (html : option str) :
  (List.length (load_3dnews clock html) <= 14)%nat.
Proof.
  unfold load_3dnews. destruct html as [[|c page]|]; cbn [List.length]; try lia.
  rewrite length_imap. apply firstn_length_le.
Qed.

Lemma load_rss_record (clock : nat -> Z) (entries : list Entry)
    (source : str) (a : Article) :
  In a (load_rss clock entries source) ->
  exists i entry,
    firstn 30 entries !! i = Some entry /\
    a = mkArticle (default [] (entry_link entry))
          (clean_text (get_or (entry_title entry) []))
          (upto 500 (clean_text (get_or (entry_summary entry)
                                   (get_or (entry_description entry) []))))
          (default [] (entry_link entry)) source (clock i) /\
    default [] (entry_link entry) <> [] /\
    clean_text (get_or (entry_title entry) []) <> [].
Proof.
  unfold load_rss. intros H. apply in_concat in H as [rec [Hrec Ha]].
  apply In_imap in Hrec as [i [entry [Hi ->]]].
  destruct (nonempty (default [] (entry_link entry))
            && nonempty (clean_text (get_or (entry_title entry) []))) eqn:E;
    [| destruct Ha].
  apply andb_true_iff in E as [Hl Ht]. destruct Ha as [<- | []].
  exists i, entry. split; [exact Hi |]. split; [reflexivity |].
  split; apply nonempty_true; assumption.
Qed.

(** X22. [load_rss] returns at most 30 records. Each has its link as id, a
    non-empty id, a non-empty cleaned title, a summary of at most 500
    characters and the given source label, and takes its other fields from
    one of the first 30 entries of the feed. *)
Theorem load_rss_contract (clock : nat -> Z) (entries : list Entry)
    (source : str) :
  (List.length (load_rss clock entries source) <= 30)%nat /\
  forall a, In a (load_rss clock entries source) ->
    art_id a = art_link a /\ art_id a <> [] /\ art_title a <> [] /\
    clean_text (art_title a) = art_title a /\
    (List.length (art_summary a) <= 500)%nat /\
    art_source a = source /\
    exists entry, In entry (firstn 30 entries) /\
                  entry_link entry = Some (art_link a).
Proof.
  split; [apply load_rss_length |].
  - intros a Ha.
    apply load_rss_record in Ha as [i [entry [Hi [-> [Hl Ht]]]]].
    cbn [art_id art_link art_title art_summary art_source].
    split; [reflexivity |]. split; [exact Hl |]. split; [exact Ht |].
    split; [apply clean_text_fixed |].
    split; [apply firstn_length_le |]. split; [reflexivity |].
    exists entry. split.
    + apply list_elem_of_In, list_elem_of_lookup. exists i. exact Hi.
    + destruct (entry_link entry); [reflexivity |].
      exfalso. apply Hl. reflexivity.
Qed.

Lemma split_go_no_sep (sep s cur : str) :
  contains sep s = false -> split_go sep s 0 cur = [rev cur ++ s].
Proof.
  revert cur. induction s as [|c s IH]; intros cur H.
  - cbn. rewrite app_nil_r. reflexivity.
  - cbn [contains] in H. apply orb_false_iff in H as [Hst Hc].
    cbn [split_go]. rewrite Hst, (IH _ Hc). cbn [rev].
    rewrite <- app_assoc. reflexivity.
Qed.

Lemma load_3dnews_record (clock : nat -> Z) (html : option str)
    (a : Article) :
  In a (load_3dnews clock html) ->
  exists i part, a = parse_3dnews_part (clock i) part.
Proof.
  unfold load_3dnews. destruct html as [[|c page]|]; try (intros []).
  intros H. apply In_imap in H as [i [part [_ ->]]]. eauto.
Qed.

(** X23. [load_3dnews] returns at most 14 records, each with its link as
    id, beginning with the site's address, with a cleaned title, an empty
    summary and the source label "3DNews". It returns nothing when the page
    could not be fetched, is empty, or holds no anchor of the form the
    loader splits on. *)
Theorem load_3dnews_contract (clock : nat -> Z) (html : option str) :
  (List.length (load_3dnews clock html) <= 14)%nat /\
  (forall a, In a (load_3dnews clock html) ->
     art_id a = art_link a /\
     startswith (lit "https://3dnews.ru/") (art_id a) = true /\
     clean_text (art_title a) = art_title a /\
     art_summary a = [] /\ art_source a = lit "3DNews") /\
  (match html with
   | None => True
   | Some page => contains anchor_3dnews page = false
   end -> load_3dnews clock html = []).
Proof.
  split; [apply load_3dnews_length | split].
  - intros a Ha. apply load_3dnews_record in Ha as [i [part ->]].
    unfold parse_3dnews_part. cbn [art_id art_link art_title art_summary
                                   art_source].
    split; [reflexivity |]. split; [| split; [| split; reflexivity]].
    + apply startswith_app. eexists. reflexivity.
    + apply clean_text_fixed.
  - destruct html as [[|c page]|]; try reflexivity.
    intros Hno. unfold load_3dnews, split.
    rewrite (split_go_no_sep _ _ [] Hno). reflexivity.
Qed.

Lemma load_vc_new_record (clock : nat -> Z)
    (matches : option (list (str * str))) (a : Article) :
  In a (load_vc_new clock matches) ->
  exists i m,
    a = mkArticle (lit "https://vc.ru" ++ lstrip_char SLASH m.1)
          (clean_text m.2) []
          (lit "https://vc.ru" ++ lstrip_char SLASH m.1)
          (lit "VC.ru New") (clock i).
Proof.
  unfold load_vc_new. destruct matches as [ms|]; [| intros []].
  intros H. apply In_imap in H as [i [m [_ ->]]]. eauto.
Qed.

Lemma load_vc_new_length (clock : nat -> Z)
    (matches : option (list (str * str))) :
  (List.length (load_vc_new clock matches) <= 15)%nat.
Proof.
  unfold load_vc_new. destruct matches as [ms|]; cbn [List.length]; try lia.
  rewrite length_imap. apply firstn_length_le.
Qed.

(** X24. One collection pass returns at most 89 records (14, 15, 30 and
    30 from the four sources), every one with its link as id, a non-empty
    id and a cleaned title; when both pages fail and both feeds are empty
    it returns nothing. *)
Theorem load_articles_from_sites_contract (net : Sources) :
  (List.length (load_articles_from_sites net) <= 89)%nat /\
  (forall a, In a (load_articles_from_sites net) ->
     art_id a = art_link a /\ art_id a <> [] /\
     clean_text (art_title a) = art_title a) /\
  (page_3dnews net = None -> matches_vc net = None ->
   feed_xakep net = [] -> feed_github net = [] ->
   load_articles_from_sites net = []).
Proof.
  unfold load_articles_from_sites. split; [| split].
  - rewrite !length_app.
    pose proof (load_3dnews_length (clock_3dnews net) (page_3dnews net)).
    pose proof (load_vc_new_length (clock_vc net) (matches_vc net)).
    pose proof (load_rss_length (clock_xakep net) (feed_xakep net)
                  (lit "Xakep.ru")).
    pose proof (load_rss_length (clock_github net) (feed_github net)
                  (lit "GitHub Trending")).
    lia.
  - intros a. rewrite !in_app_iff. intros [H | [H | [H | H]]].
    + apply load_3dnews_record in H as [i [part ->]].
      unfold parse_3dnews_part. cbn [art_id art_link art_title].
      split; [reflexivity |]. split; [discriminate |].
      apply clean_text_fixed.
    + apply load_vc_new_record in H as [i [m ->]].
      cbn [art_id art_link art_title].
      split; [reflexivity |]. split; [discriminate |].
      apply clean_text_fixed.
    + apply load_rss_record in H as [i [entry [_ [-> [Hl _]]]]].
      cbn [art_id art_link art_title].
      split; [reflexivity |]. split; [exact Hl |].
      apply clean_text_fixed.
    + apply load_rss_record in H as [i [entry [_ [-> [Hl _]]]]].
      cbn [art_id art_link art_title].
      split; [reflexivity |]. split; [exact Hl |].
      apply clean_text_fixed.
  - intros -> -> -> ->. reflexivity.
Qed.

(** ** The threshold and the output of the filter, in full *)

Lemma two_distinct_members {A} (l : list A) :
  List.NoDup l ->
  ((2 <= List.length l)%nat <->
   exists x y, x <> y /\ In x l /\ In y l).
Proof.
  intros Hnd. split.
  - destruct l as [|x [|y l]]; cbn [List.length]; try lia. intros _.
    exists x, y. inversion Hnd as [|? ? Hx _]; subst.
    split; [| split; [left; reflexivity | right; left; reflexivity]].
    intros ->. apply Hx. left. reflexivity.
  - intros [x [y [Hne [Hx Hy]]]].
    destruct l as [|a [|b l]]; cbn [List.length]; try lia.
    + destruct Hx.
    + destruct Hx as [<- | []], Hy as [<- | []]. congruence.
Qed.

(** X25. [check_require_keywords] accepts a text exactly when at least two
    different require-terms occur in its lower-cased form. *)
Theorem check_require_keywords_iff (lower : str -> str) (text : str) :
  check_require_keywords lower text = true <->
  exists k1 k2,
    k1 <> k2 /\ In k1 REQUIRE_KEYWORDS /\ In k2 REQUIRE_KEYWORDS /\
    occurs_in k1 (lower text) /\ occurs_in k2 (lower text).
Proof.
  unfold check_require_keywords. cbn zeta.
  set (found := List.filter (fun kw => contains kw (lower text))
                            REQUIRE_KEYWORDS).
  assert (Hnd : List.NoDup found)
    by apply List.NoDup_filter, REQUIRE_KEYWORDS_NoDup.
  assert (Hin : forall k, In k found <->
                  In k REQUIRE_KEYWORDS /\ occurs_in k (lower text)).
  { intros k. unfold found. rewrite filter_In, contains_occurs. reflexivity. }
  clearbody found.
  rewrite Nat.leb_le, (two_distinct_members found Hnd).
  split; intros [k1 [k2 [Hne [H1 H2]]]]; exists k1, k2.
  - apply Hin in H1 as [? ?]. apply Hin in H2 as [? ?]. tauto.
  - destruct H2 as [H2 [H3 H4]].
    split; [exact Hne |]. split; apply Hin; tauto.
Qed.

Section FilterFull.
Variable lower : str -> str.

Lemma survives_true (ledger : gmap str (option Z)) (e : Article) :
  survives lower ledger e = true <->
  ledger !! art_id e = None /\
  (forall kw, In kw EXCLUDE_KEYWORDS ->
     ~ occurs_in kw (article_text lower e)) /\
  check_require_keywords lower (article_text lower e) = true.
Proof.
  unfold survives, in_ledger, excluded, relevant.
  rewrite !andb_true_iff, !negb_true_iff, bool_decide_eq_false.
  rewrite <- eq_None_not_Some.
  assert (Hex : any_in EXCLUDE_KEYWORDS (article_text lower e) = false <->
                forall kw, In kw EXCLUDE_KEYWORDS ->
                  ~ occurs_in kw (article_text lower e)).
  { split; [apply no_exclude_checked |]. intros H.
    apply not_true_is_false. intros Ht. apply any_in_occurs in Ht.
    destruct Ht as [kw [Hkw Hocc]]. exact (H kw Hkw Hocc). }
  rewrite Hex. tauto.
Qed.

(** X26. A record is in the output of [filter_articles] exactly when it is
    in the batch, its id is not in the ledger, no exclude-term occurs in its
    text, [check_require_keywords] accepts the text, and it is
    locale-relevant or no record of the batch that passes these tests is. *)
Theorem filter_articles_membership (ledger : gmap str (option Z))
    (articles : list Article) (e : Article) :
  In e (filter_articles lower ledger articles) <->
  In e articles /\
  ledger !! art_id e = None /\
  (forall kw, In kw EXCLUDE_KEYWORDS ->
     ~ occurs_in kw (article_text lower e)) /\
  check_require_keywords lower (article_text lower e) = true /\
  (is_locale lower e = true \/
   forall e', In e' articles -> survives lower ledger e' = true ->
     is_locale lower e' = false).
Proof.
  rewrite filter_articles_eq, sort_desc_In.
  assert (Hnil : locale_bucket lower ledger articles = [] <->
            forall e', In e' articles -> survives lower ledger e' = true ->
              is_locale lower e' = false).
  { unfold locale_bucket. split.
    - intros E e' Hin Hs. apply not_true_is_false. intros Hl.
      assert (H : In e' (List.filter
                 (fun e0 => survives lower ledger e0 && is_locale lower e0)
                 articles))
        by (apply filter_In; rewrite Hs, Hl; auto).
      rewrite E in H. destruct H.
    - intros H. apply filter_none. intros x Hx.
      destruct (survives lower ledger x) eqn:Hs; [| reflexivity].
      rewrite (H x Hx Hs). reflexivity. }
  rewrite <- Hnil. clear Hnil.
  assert (Hcore : In e (working_set lower ledger articles) <->
            In e articles /\ survives lower ledger e = true /\
            (is_locale lower e = true \/
             locale_bucket lower ledger articles = [])).
  { unfold working_set.
    destruct (locale_bucket lower ledger articles) as [|x l] eqn:E.
    - unfold general_bucket. rewrite filter_In, andb_true_iff, negb_true_iff.
      split.
      + intros [Hin [Hs _]]. repeat split; auto.
      + intros [Hin [Hs _]]. repeat split; try assumption.
        apply not_true_is_false. intros Hl.
        assert (H : In e (locale_bucket lower ledger articles))
          by (apply filter_In; rewrite Hs, Hl; auto).
        rewrite E in H. destruct H.
    - rewrite <- E. unfold locale_bucket at 1.
      rewrite filter_In, andb_true_iff. split.
      + intros [Hin [Hs Hl]]. repeat split; auto.
      + intros [Hin [Hs [Hl | Hl]]]; [repeat split; assumption |].
        rewrite E in Hl. discriminate Hl. }
  rewrite Hcore. pose proof (survives_true ledger e) as Hsv. tauto.
Qed.

Lemma filter_perm {A} (p : A -> bool) (l l' : list A) :
  Permutation l l' -> Permutation (List.filter p l) (List.filter p l').
Proof.
  induction 1 as [| x l l' _ IH | x y l | l l' l'' _ IH1 _ IH2].
  - constructor.
  - cbn. destruct (p x); [constructor |]; exact IH.
  - cbn. destruct (p x), (p y); try apply Permutation_refl. apply perm_swap.
  - exact (Permutation_trans IH1 IH2).
Qed.

Lemma working_set_perm ledger (articles articles' : list Article) :
  Permutation articles articles' ->
  Permutation (working_set lower ledger articles)
              (working_set lower ledger articles').
Proof.
  intros Hp. unfold working_set.
  pose proof (filter_perm
    (fun e => survives lower ledger e && is_locale lower e) _ _ Hp) as Hru.
  pose proof (filter_perm
    (fun e => survives lower ledger e && negb (is_locale lower e)) _ _ Hp)
    as Hworld.
  fold (locale_bucket lower ledger articles) in Hru.
  fold (locale_bucket lower ledger articles') in Hru.
  fold (general_bucket lower ledger articles) in Hworld.
  fold (general_bucket lower ledger articles') in Hworld.
  destruct (locale_bucket lower ledger articles) as [|x l] eqn:E,
           (locale_bucket lower ledger articles') as [|x' l'] eqn:E'.
  - exact Hworld.
  - apply Permutation_nil in Hru. discriminate Hru.
  - apply Permutation_sym, Permutation_nil in Hru. discriminate Hru.
  - exact Hru.
Qed.

Lemma sorted_perm_unique {A} (key : A -> Z) (l l' : list A) :
  newest_first key l -> newest_first key l' -> Permutation l l' ->
  (forall x y, In x l -> In y l -> key x = key y -> x = y) ->
  l = l'.
Proof.
  unfold newest_first. intros Hs. revert l'.
  induction Hs as [|x l Hs IH Hall]; intros l' Hs' Hp Hinj.
  - apply Permutation_nil in Hp. congruence.
  - destruct l' as [|y l']; [apply Permutation_sym, Permutation_nil in Hp;
                             discriminate Hp |].
    inversion Hs' as [|? ? Hs'' Hall']; subst.
    rewrite List.Forall_forall in Hall, Hall'.
    assert (Hxy : x = y).
    { assert (Hx : In x (y :: l'))
        by (apply (Permutation_in _ Hp); left; reflexivity).
      assert (Hy : In y (x :: l))
        by (apply (Permutation_in _ (Permutation_sym Hp)); left; reflexivity).
      destruct Hx as [-> | Hx]; [reflexivity |].
      destruct Hy as [-> | Hy]; [reflexivity |].
      apply Hinj; [left; reflexivity | right; exact Hy |].
      pose proof (Hall y Hy). pose proof (Hall' x Hx). cbn in *. lia. }
    subst y. f_equal. apply IH; [exact Hs'' | |].
    + exact (Permutation_cons_inv Hp).
    + intros a b Ha Hb. apply Hinj; right; assumption.
Qed.

(** X27. When the records of the batch have pairwise different values of
    [published_parsed], the output of [filter_articles] does not depend on
    the order in which the batch lists them. *)
Theorem filter_articles_order_insensitive (ledger : gmap str (option Z))
    (articles articles' : list Article) :
  Permutation articles articles' ->
  (forall x y, In x articles -> In y articles ->
     published_parsed x = published_parsed y -> x = y) ->
  filter_articles lower ledger articles'
  = filter_articles lower ledger articles.
Proof.
  intros Hp Hinj. rewrite !filter_articles_eq.
  apply (sorted_perm_unique published_parsed); try apply sort_desc_sorted.
  - apply Permutation_trans with (working_set lower ledger articles');
      [apply sort_desc_perm |].
    apply Permutation_trans with (working_set lower ledger articles);
      [apply Permutation_sym, working_set_perm, Hp |].
    apply Permutation_sym, sort_desc_perm.
  - intros x y Hx Hy. apply sort_desc_In in Hx, Hy.
    apply working_set_In in Hx as [Hx _], Hy as [Hy _].
    apply Hinj; apply (Permutation_in _ (Permutation_sym Hp)); assumption.
Qed.

End FilterFull.

(** ** A well-formed anchor *)

Lemma find_from_first (h : N) (sub pre post : str) (i : Z) :
  (forall c, In c pre -> c <> h) ->
  find_from (h :: sub) (pre ++ (h :: sub) ++ post) i
  = (i + Z.of_nat (List.length pre))%Z.
Proof.
  revert i. induction pre as [|c pre IH]; intros i Hpre.
  - cbn [app List.length find_from].
    assert (H : startswith (h :: sub) (h :: sub ++ post) = true)
      by (apply startswith_app; exists post; reflexivity).
    rewrite H. lia.
  - cbn [app find_from startswith].
    assert (Hc : (h =? c) = false)
      by (apply N.eqb_neq; intros ->; apply (Hpre c); [left |]; reflexivity).
    rewrite Hc. cbn [andb].
    rewrite IH by (intros d Hd; apply Hpre; right; exact Hd).
    cbn [List.length]. lia.
Qed.

Lemma slice_between (a b c : str) :
  slice (Z.of_nat (List.length a))
        (Z.of_nat (List.length a) + Z.of_nat (List.length b)) (a ++ b ++ c)
  = b.
Proof.
  unfold slice, clamp_index. rewrite !length_app.
  repeat match goal with
  | |- context [(?x <? 0)%Z] =>
    destruct (Z.ltb_spec x 0); [lia |]
  end.
  rewrite !Z.min_r, !Z.max_r by lia.
  replace (Z.to_nat (Z.of_nat (List.length a) + Z.of_nat (List.length b)
                     - Z.of_nat (List.length a))) with (List.length b) by lia.
  rewrite Nat2Z.id, skipn_app, skipn_all, Nat.sub_diag.
  change (skipn 0 (b ++ c)) with (b ++ c). cbn [app].
  rewrite firstn_app, firstn_all, Nat.sub_diag.
  change (firstn 0 c) with (@nil N). apply app_nil_r.
Qed.

(** X28. On a well-formed anchor, the text after the split point being
    [href], a double quote, [attrs], [>], [title], [</a>] and the rest, with
    no double quote, [>] or [<] before the place where each is looked for,
    the loop body of [load_3dnews] builds the record with the site's address
    followed by [href] (leading slashes dropped) as id and link, and the
    cleaned [title] as title. *)
Theorem parse_3dnews_part_well_formed (now : Z)
    (href attrs title rest : str) :
  (forall c, In c href -> c <> DQUOTE /\ c <> 62 /\ c <> 60) ->
  (forall c, In c attrs -> c <> 62 /\ c <> 60) ->
  (forall c, In c title -> c <> 60) ->
  parse_3dnews_part now
    (href ++ [DQUOTE] ++ attrs ++ lit ">" ++ title ++ lit "</a>" ++ rest)
  = mkArticle (lit "https://3dnews.ru/" ++ lstrip_char SLASH href)
              (clean_text title) []
              (lit "https://3dnews.ru/" ++ lstrip_char SLASH href)
              (lit "3DNews") now.
Proof.
  intros Hhref Hattrs Htitle. unfold parse_3dnews_part.
  set (part := href ++ [DQUOTE] ++ attrs ++ lit ">" ++ title
               ++ lit "</a>" ++ rest).
  assert (Hq : find [DQUOTE] part = Z.of_nat (List.length href)).
  { unfold find, part.
    rewrite (find_from_first DQUOTE [] href) by (intros c Hc; apply Hhref, Hc).
    lia. }
  assert (Hgt : find (lit ">") part
                = Z.of_nat (List.length (href ++ [DQUOTE] ++ attrs))).
  { unfold find. change (lit ">") with [62].
    replace part
      with ((href ++ [DQUOTE] ++ attrs)
            ++ [62] ++ (title ++ lit "</a>" ++ rest))
      by (unfold part; rewrite <- !app_assoc; reflexivity).
    rewrite find_from_first; [lia |].
    intros c Hc. rewrite !in_app_iff in Hc.
    destruct Hc as [Hc | [[<- | []] | Hc]];
      [apply Hhref, Hc | discriminate | apply Hattrs, Hc]. }
  assert (Hlt : find (lit "</a>") part
                = Z.of_nat (List.length (href ++ [DQUOTE] ++ attrs ++ [62]
                                         ++ title))).
  { unfold find. change (lit "</a>") with (60 :: [47; 97; 62]).
    replace part
      with ((href ++ [DQUOTE] ++ attrs ++ [62] ++ title)
            ++ (60 :: [47; 97; 62]) ++ rest)
      by (unfold part; rewrite <- !app_assoc; reflexivity).
    rewrite find_from_first; [lia |].
    intros c Hc. rewrite !in_app_iff in Hc.
    destruct Hc as [Hc | [[<- | []] | [Hc | [[<- | []] | Hc]]]];
      [apply Hhref, Hc | discriminate | apply Hattrs, Hc | discriminate
      | apply Htitle, Hc]. }
  rewrite Hq, Hgt, Hlt.
  assert (Hhref_slice : slice 0 (Z.of_nat (List.length href)) part = href).
  { pose proof (slice_between [] href
                  ([DQUOTE] ++ attrs ++ lit ">" ++ title ++ lit "</a>" ++ rest))
      as H.
    cbn [List.length app Z.of_nat Z.add] in H. exact H. }
  assert (Htitle_slice :
    slice (Z.of_nat (List.length (href ++ [DQUOTE] ++ attrs)) + 1)
          (Z.of_nat (List.length (href ++ [DQUOTE] ++ attrs ++ [62] ++ title)))
          part = title).
  { pose proof (slice_between (href ++ [DQUOTE] ++ attrs ++ [62]) title
                  (lit "</a>" ++ rest)) as H.
    rewrite <- !app_assoc in H.
    replace (Z.of_nat (List.length (href ++ [DQUOTE] ++ attrs)) + 1)%Z
      with (Z.of_nat (List.length (href ++ [DQUOTE] ++ attrs ++ [62])))
      by (rewrite !length_app; cbn [List.length]; lia).
    replace (Z.of_nat (List.length (href ++ [DQUOTE] ++ attrs ++ [62]
                                    ++ title)))
      with (Z.of_nat (List.length (href ++ [DQUOTE] ++ attrs ++ [62%N]))
            + Z.of_nat (List.length title))%Z
      by (rewrite !length_app; cbn [List.length]; lia).
    exact H. }
  rewrite Hhref_slice, Htitle_slice. reflexivity.
Qed.

(** ** Worked inputs for the further properties *)

Lemma clean_old_posts_twice_witness :
  let ledger : gmap str (option Z) :=
    {[ lit "https://x/1" := Some 1699000000%Z ]} in
  (1700000000 <= 1700000100)%Z /\
  clean_old_posts 1700000100 (clean_old_posts 1700000000 ledger)
  = clean_old_posts 1700000100 ledger.
Proof.
  cbn zeta. assert (H : (1700000000 <= 1700000100)%Z) by lia.
  split; [exact H |].
  exact (clean_old_posts_twice 1700000000 1700000100 _ H).
Defined.

Lemma ledger_file_round_trip_witness :
  Permutation (rev (save_posted_articles ledger_saturated))
              (save_posted_articles ledger_saturated) /\
  load_posted_articles (Some (rev (save_posted_articles ledger_saturated)))
  = ledger_saturated.
Proof.
  assert (H : Permutation (rev (save_posted_articles ledger_saturated))
                          (save_posted_articles ledger_saturated))
    by apply Permutation_sym, Permutation_rev.
  split; [exact H | exact (ledger_file_round_trip _ _ H)].
Defined.

Lemma load_posted_articles_last_wins_witness :
  let posted_data := [mkItem (Some (lit "https://x/1")) (Some 5%Z);
                      mkItem (Some (lit "https://x/1")) None] in
  Forall (fun item => item_id item <> None) posted_data /\
  load_posted_articles (Some posted_data) !! lit "https://x/1"
  = item_timestamp <$> last_item (lit "https://x/1") posted_data.
Proof.
  cbn zeta.
  assert (H : Forall (fun item => item_id item <> None)
                [mkItem (Some (lit "https://x/1")) (Some 5%Z);
                 mkItem (Some (lit "https://x/1")) None])
    by (repeat constructor; discriminate).
  split; [exact H |].
  exact (load_posted_articles_last_wins _ (lit "https://x/1") H).
Defined.

Lemma same_keys_example (i : str) :
  is_Some (({[ lit "https://x/1" := None ]} : gmap str (option Z)) !! i) <->
  is_Some (({[ lit "https://x/1" := Some 5%Z ]} : gmap str (option Z)) !! i).
Proof.
  destruct (decide (i = lit "https://x/1")) as [-> | Hne].
  - rewrite !lookup_singleton_eq. split; eauto.
  - rewrite !lookup_singleton_ne by congruence. reflexivity.
Qed.

Lemma filter_articles_ledger_keys_witness :
  filter_articles lower_basic {[ lit "https://x/1" := None ]}
                  [art_world; art_tor]
  = filter_articles lower_basic {[ lit "https://x/1" := Some 5%Z ]}
                    [art_world; art_tor].
Proof.
  exact (filter_articles_ledger_keys lower_basic _ _ [art_world; art_tor]
           same_keys_example).
Defined.

Lemma short_summary_not_empty_witness :
  let chat := fun _ : str => Some (lit " text ") in
  let out := lit "text" ++ attribution [] (lit "https://x/1") in
  short_summary [] chat (lit "t") (lit "s") (lit "https://x/1") = Some out /\
  (12 <= List.length out <= 1024)%nat /\ out <> [].
Proof.
  cbn zeta.
  assert (H : short_summary [] (fun _ : str => Some (lit " text "))
                (lit "t") (lit "s") (lit "https://x/1")
              = Some (lit "text" ++ attribution [] (lit "https://x/1")))
    by (vm_compute; reflexivity).
  split; [exact H |].
  exact (short_summary_not_empty _ _ _ _ _ _ H).
Defined.

Lemma saturated_example (e : Article) :
  In e (load_articles_from_sites (env_sources env_all_ok)) ->
  is_Some (clean_old_posts (env_now env_all_ok) ledger_saturated !! art_id e).
Proof.
  assert (Hl : load_articles_from_sites (env_sources env_all_ok)
               = [art_world; art_tor]) by (vm_compute; reflexivity).
  rewrite Hl. intros [<- | [<- | []]]; vm_compute; eauto.
Qed.

Lemma autopost_nothing_new_witness :
  published (autopost lower_basic [] env_all_ok ledger_saturated) = [] /\
  posted_articles (autopost lower_basic [] env_all_ok ledger_saturated)
  = clean_old_posts (env_now env_all_ok) ledger_saturated.
Proof.
  exact (autopost_nothing_new lower_basic [] env_all_ok ledger_saturated
           saturated_example).
Defined.

Lemma no_text_example (i : nat) :
  (forall prompt, env_chat env_no_text i prompt = None) \/
  env_sent env_no_text i = false.
Proof. left. intros prompt. reflexivity. Qed.

Lemma autopost_all_attempts_fail_witness :
  published (autopost lower_basic [] env_no_text ∅) = [] /\
  posted_articles (autopost lower_basic [] env_no_text ∅)
  = clean_old_posts (env_now env_no_text) ∅.
Proof.
  exact (autopost_all_attempts_fail lower_basic [] env_no_text ∅
           no_text_example).
Defined.

Lemma candidates_example :
  filter_articles lower_basic (clean_old_posts (env_now env_all_ok) ∅)
    (load_articles_from_sites (env_sources env_all_ok))
  = art_world :: [art_tor].
Proof. vm_compute. reflexivity. Qed.

Lemma autopost_publishes_first_witness :
  let run := autopost lower_basic [] env_all_ok ∅ in
  let recorded :=
    save_posted 1700000001 (art_id art_world)
                (clean_old_posts (env_now env_all_ok) ∅) in
  List.map post_article (published run) = [art_world] /\
  List.map post_text (published run)
  = [upto 1024 (strip (lit "text")
                ++ attribution [] (art_link art_world))] /\
  posted_articles run = recorded /\
  posted_file run = Some recorded.
Proof.
  exact (autopost_publishes_first lower_basic [] env_all_ok ∅ art_world
           [art_tor] (lit "text") candidates_example eq_refl eq_refl eq_refl
           eq_refl eq_refl).
Defined.

Lemma autopost_file_mirrors_ledger_witness :
  posted_file (autopost lower_basic [] env_all_ok ∅)
  = Some (posted_articles (autopost lower_basic [] env_all_ok ∅)).
Proof.
  exact (autopost_file_mirrors_ledger lower_basic [] env_all_ok ∅ eq_refl
           (fun _ => eq_refl)).
Defined.

Lemma distinct_times_example (x y : Article) :
  In x [art_world; art_late] -> In y [art_world; art_late] ->
  published_parsed x = published_parsed y -> x = y.
Proof.
  intros [<- | [<- | []]] [<- | [<- | []]] H;
    try reflexivity; discriminate H.
Qed.

Lemma filter_articles_order_insensitive_witness :
  Permutation [art_world; art_late] [art_late; art_world] /\
  filter_articles lower_basic ∅ [art_late; art_world]
  = filter_articles lower_basic ∅ [art_world; art_late].
Proof.
  assert (H : Permutation [art_world; art_late] [art_late; art_world])
    by apply perm_swap.
  split; [exact H |].
  exact (filter_articles_order_insensitive lower_basic ∅ _ _ H
           distinct_times_example).
Defined.

Lemma anchor_example_chars :
  (forall c, In c (lit "news/1") -> c <> DQUOTE /\ c <> 62 /\ c <> 60) /\
  (forall c, In c (lit " class=news") -> c <> 62 /\ c <> 60) /\
  (forall c, In c (lit "VPN  news ") -> c <> 60).
Proof.
  split; [| split]; intros c H; cbv in H;
    repeat (destruct H as [<- | H]; [repeat split; discriminate |]);
    destruct H.
Qed.

Lemma parse_3dnews_part_well_formed_witness :
  parse_3dnews_part 0
    (lit "news/1" ++ [DQUOTE] ++ lit " class=news" ++ lit ">"
     ++ lit "VPN  news " ++ lit "</a>" ++ lit "<p>")
  = mkArticle (lit "https://3dnews.ru/news/1") (lit "VPN news") []
              (lit "https://3dnews.ru/news/1") (lit "3DNews") 0.
Proof.
  rewrite (parse_3dnews_part_well_formed 0 (lit "news/1") (lit " class=news")
             (lit "VPN  news ") (lit "<p>")
             (proj1 anchor_example_chars)
             (proj1 (proj2 anchor_example_chars))
             (proj2 (proj2 anchor_example_chars))).
  vm_compute. reflexivity.
Defined.

(** ** No repost within the retention window *)

Lemma autopost_published_candidate (lower : str -> str) (FOOTER_TEXT : str)
    (env : Env) (ledger0 : gmap str (option Z)) (post : Post) :
  In post (published (autopost lower FOOTER_TEXT env ledger0)) ->
  In (post_article post)
     (filter_articles lower (clean_old_posts (env_now env) ledger0)
        (load_articles_from_sites (env_sources env))).
Proof.
  unfold autopost. destruct (env_clean_written env); cbn [negb];
    [| intros []].
  match goal with
  | |- context [attempts _ _ ?i ?c ?s] =>
    destruct (attempts_trace FOOTER_TEXT env c i s) as [posts [Hp [Hs _]]]
  end.
  cbn [published app] in Hp. rewrite Hp. intros Hin.
  apply (In_firstn_In 5), list_elem_of_In.
  eapply elem_of_sublist; [| exact Hs].
  apply list_elem_of_In, in_map, Hin.
Qed.

(** X29. A run never publishes an article that the ledger it started from
    holds with a null timestamp or with a timestamp newer than
    [now - 7*86400]: a published article was either unknown to the ledger or
    recorded at least seven days before the run. *)
Theorem autopost_never_reposts (lower : str -> str) (FOOTER_TEXT : str)
    (env : Env) (ledger0 : gmap str (option Z)) (post : Post) :
  In post (published (autopost lower FOOTER_TEXT env ledger0)) ->
  match ledger0 !! art_id (post_article post) with
  | None => True
  | Some None => False
  | Some (Some ts) => (ts <= env_now env - 7 * 86400)%Z
  end.
Proof.
  intros Hin. apply autopost_published_candidate in Hin.
  apply filter_articles_In in Hin as [_ Hs].
  unfold survives, in_ledger in Hs.
  rewrite clean_old_posts_lookup in Hs.
  destruct (ledger0 !! art_id (post_article post)) as [[ts|]|];
    [| | exact I]; cbn [retained] in Hs.
  - change (RETENTION_DAYS * 86400)%Z with (7 * 86400)%Z in Hs.
    destruct (Z.gtb_spec ts (env_now env - 7 * 86400)) as [Hgt | Hle];
      [| exact Hle].
    rewrite bool_decide_eq_true_2 in Hs by eauto. discriminate Hs.
  - rewrite bool_decide_eq_true_2 in Hs by eauto. discriminate Hs.
Qed.

Lemma republished_example :
  published (autopost lower_basic [] env_all_ok
               {[ lit "https://x/1" := Some 1600000000%Z ]})
  = [mkPost art_world
       (upto 1024 (strip (lit "text") ++ attribution [] (art_link art_world)))
       None].
Proof. vm_compute. reflexivity. Qed.

Lemma autopost_never_reposts_witness :
  let ledger0 : gmap str (option Z) :=
    {[ lit "https://x/1" := Some 1600000000%Z ]} in
  let post :=
    mkPost art_world
      (upto 1024 (strip (lit "text") ++ attribution [] (art_link art_world)))
      None in
  In post (published (autopost lower_basic [] env_all_ok ledger0)) /\
  match ledger0 !! art_id (post_article post) with
  | None => True
  | Some None => False
  | Some (Some ts) => (ts <= env_now env_all_ok - 7 * 86400)%Z
  end.
Proof.
  cbn zeta.
  assert (Hin : In (mkPost art_world
                      (upto 1024 (strip (lit "text")
                                  ++ attribution [] (art_link art_world)))
                      None)
                   (published (autopost lower_basic [] env_all_ok
                      {[ lit "https://x/1" := Some 1600000000%Z ]})))
    by (rewrite republished_example; left; reflexivity).
  split; [exact Hin |].
  exact (autopost_never_reposts lower_basic [] env_all_ok _ _ Hin).
Defined.
